(** * The discovery service of noise: inbound dispatch and disconnect handling

    A shallow embedding of [discovery/service.go] and the properties of its
    entry points.  The service is written against three collaborators (the
    routing table of package [dht], the lookup engine [FindNode] and the
    protobuf wire format); they are interfaces here, and a reference routing
    table following the written contract is given further down. *)

From Stdlib Require Import ZArith List String Bool Lia.
From Stdlib Require Import Strings.Byte Sorting.Sorted Sorting.Permutation.
Import ListNotations.

Local Open Scope string_scope.
Local Open Scope Z_scope.
Local Open Scope list_scope.

Set Implicit Arguments.

(** ** Data of the imported packages *)

Module peer.

(** [peer.ID]: a network address and the identity bytes. *)
Record ID := mkID { Address : string; Id : list byte }.

End peer.

Module protocol.

(** [protocol.MessageBody]: the service tag and the encoded payload. *)
Record MessageBody := mkBody { Service : Z; Payload : list byte }.

(** [protocol.Message]: the envelope.  [Body] is a pointer and may be nil. *)
Record Message := mkMessage
  { Sender : string; Recipient : string; Body : option MessageBody }.

End protocol.

Module protobuf.

(** [protobuf.ID] has the fields of [peer.ID]; the Go conversion
    [protobuf.ID(peerID)] copies them. *)
Record ID := mkID { Address : string; Id : list byte }.

Definition of_peer (p : peer.ID) : ID :=
  {| Address := peer.Address p; Id := peer.Id p |}.

(** Modelled from the spec: the generated record [protobuf.Message] of
    package internal/protobuf, the decoded form of a payload: the opcode and
    the still encoded fields. *)
Record Message := mkMessage { Opcode : Z; Contents : list byte }.

(** The two records the service sends: [&protobuf.Pong{}] and
    [&protobuf.LookupNodeResponse{Peers: ...}]. *)
Inductive content :=
| Pong
| LookupNodeResponse (Peers : list ID).

End protobuf.

Module errors.

(** Error values.  [New], [Wrap] and [Errorf] are the constructors of
    pkg/errors the service calls; [Foreign] stands for an error value made
    by a collaborator, which is never one of the service's own. *)
Inductive error :=
| New (message : string)
| Wrap (cause : error) (message : string)
| Errorf (format : string) (arg : Z)
| Foreign (what : string).

End errors.

Module log.

Inductive Level := Info | Debug.

Inductive Field :=
| Str (key value : string)
| Strs (key : string) (values : list string).

(** One zerolog record: [log.Info().Strs(...).Msg(...)]. *)
Record Entry := mkEntry
  { level : Level; fields : list Field; message : string }.

End log.

(** What a collaborator returns in place of Go's [(value, error)]. *)
Inductive result (A : Type) :=
| Ok (value : A)
| Failed (what : string).

Arguments Ok {A} value.
Arguments Failed {A} what.

(** ** The collaborators *)

Module dht.

(** Modelled from the spec: package dht, whose [RoutingTable] and constant
    [BucketSize] the service uses.  Only the operations are fixed here
    (spec 4.3: create-for-self, upsert, lookup-by-address, nearest, exists,
    remove, all-addresses, self); methods that mutate the table return the
    new table. *)
Class Ops := {
  RoutingTable : Type;
  BucketSize : Z;
  CreateRoutingTable : peer.ID -> RoutingTable;
  Self : RoutingTable -> peer.ID;
  Update : RoutingTable -> peer.ID -> RoutingTable;
  LookupRemoteAddress : RoutingTable -> string -> option peer.ID;
  FindClosestPeers : RoutingTable -> peer.ID -> Z -> list peer.ID;
  PeerExists : RoutingTable -> peer.ID -> bool;
  RemovePeer : RoutingTable -> peer.ID -> RoutingTable;
  GetPeerAddresses : RoutingTable -> list string
}.

End dht.

Import dht.

(** Modelled from the spec: the lookup engine [FindNode] of the discovery
    package and the type [SendHandler] it sends through (spec 4.2).  The
    engine reads the routing table it is given and returns the peers it
    found. *)
Class Engine `{dht.Ops} := {
  SendHandler : Type;
  FindNode : RoutingTable -> SendHandler -> peer.ID -> Z -> Z -> list peer.ID
}.

(** Modelled from the spec: the constants of the discovery package
    ([DiscoveryServiceID] and the four opcodes, spec 6), its helper
    [toProtobufMessage], and [proto.Marshal] / [proto.Unmarshal] at the type
    [protobuf.Message]. *)
Class Wire := {
  DiscoveryServiceID : Z;
  opCodePing : Z;
  opCodePong : Z;
  opCodeLookupRequest : Z;
  opCodeLookupResponse : Z;
  toProtobufMessage : Z -> protobuf.content -> result protobuf.Message;
  Marshal : protobuf.Message -> result (list byte);
  Unmarshal : list byte -> result protobuf.Message
}.

(** ** Calls on the collaborators, in the order they are made *)

Inductive event :=
| CallLookupRemoteAddress (address : string)
| CallUpdate (target : peer.ID)
| CallFindNode (target : peer.ID) (count factor : Z)
| CallFindClosestPeers (target : peer.ID) (count : Z)
| CallPeerExists (target : peer.ID)
| CallRemovePeer (target : peer.ID)
| CallGetPeerAddresses
| CallSelf
| Logged (entry : log.Entry).

(** The calls that may change the routing table. *)
Definition mutating (e : event) : bool :=
  match e with
  | CallUpdate _ | CallRemovePeer _ => true
  | _ => false
  end.

Definition mutations (tr : list event) : list event := filter mutating tr.

Definition lookups (tr : list event) : list event :=
  filter (fun e => match e with CallFindNode _ _ _ => true | _ => false end) tr.

Section Discovery.

Context `{E : Engine} `{W : Wire}.

(** ** The state the service runs in

    [Service.Routes] is a pointer to the one routing table of the node:
    the table it points to is the [table] of the machine state, next to the
    record of the calls made so far. *)
Record machine := mkMachine { table : RoutingTable; trace : list event }.

Definition M (A : Type) : Type := machine -> A * machine.

Definition ret {A} (a : A) : M A := fun m => (a, m).

Definition bind {A B} (c : M A) (k : A -> M B) : M B :=
  fun m => let (a, m') := c m in k a m'.

Definition read {A} (e : event) (f : RoutingTable -> A) : M A :=
  fun m => (f (table m), {| table := table m; trace := trace m ++ [e] |}).

Definition write (e : event) (f : RoutingTable -> RoutingTable) : M unit :=
  fun m => (tt, {| table := f (table m); trace := trace m ++ [e] |}).

End Discovery.

Declare Scope go_scope.
Delimit Scope go_scope with go.
Notation "x <- c1 ;; c2" := (bind c1 (fun x => c2))
  (at level 100, c1 at next level, right associativity) : go_scope.
Notation "c1 ;; c2" := (bind c1 (fun _ => c2))
  (at level 100, right associativity) : go_scope.

Section Service.

Context `{E : Engine} `{W : Wire}.

Local Open Scope go_scope.

(** The methods of [dht.RoutingTable] and the other effects, as steps. *)
Definition Routes_Update (target : peer.ID) : M unit :=
  write (CallUpdate target) (fun t => Update t target).

Definition Routes_LookupRemoteAddress (address : string)
  : M (option peer.ID) :=
  read (CallLookupRemoteAddress address)
       (fun t => LookupRemoteAddress t address).

Definition Routes_FindClosestPeers (target : peer.ID) (count : Z)
  : M (list peer.ID) :=
  read (CallFindClosestPeers target count)
       (fun t => FindClosestPeers t target count).

Definition Routes_PeerExists (target : peer.ID) : M bool :=
  read (CallPeerExists target) (fun t => PeerExists t target).

Definition Routes_RemovePeer (target : peer.ID) : M unit :=
  write (CallRemovePeer target) (fun t => RemovePeer t target).

Definition Routes_GetPeerAddresses : M (list string) :=
  read CallGetPeerAddresses GetPeerAddresses.

Definition Routes_Self : M peer.ID := read CallSelf Self.

Definition call_FindNode (sh : SendHandler) (target : peer.ID)
  (count factor : Z) : M (list peer.ID) :=
  read (CallFindNode target count factor)
       (fun t => FindNode t sh target count factor).

Definition emit (entry : log.Entry) : M unit :=
  write (Logged entry) (fun t => t).

(** [for _, x := range xs { body }] *)
Fixpoint for_range {A} (xs : list A) (body : A -> M unit) : M unit :=
  match xs with
  | [] => ret tt
  | x :: rest => body x ;; for_range rest body
  end.

(** ** service.go *)

Record Service := mkService {
  DisablePing : bool;
  DisablePong : bool;
  DisableLookup : bool;
  sendHandler : SendHandler
}.

(** Go's pair of a [protocol.MessageBody] pointer and an [error]. *)
Definition reply_or_error : Type :=
  (option protocol.MessageBody * option errors.error)%type.

Definition NewService (sh : SendHandler) (selfID : peer.ID)
  : Service * machine :=
  ({| DisablePing := false; DisablePong := false; DisableLookup := false;
      sendHandler := sh |},
   {| table := CreateRoutingTable selfID; trace := [] |}).

Definition makeMessageBody (opcode : Z) (content : protobuf.content)
  : reply_or_error :=
  match toProtobufMessage opcode content with
  | Failed what => (None, Some (errors.Foreign what))
  | Ok msg =>
      match Marshal msg with
      | Failed what =>
          (None, Some (errors.Wrap (errors.Foreign what) "Unable to marshal"))
      | Ok msgBytes =>
          (Some {| protocol.Service := DiscoveryServiceID;
                   protocol.Payload := msgBytes |}, None)
      end
  end.

Definition receive (s : Service) (sender target : peer.ID)
  (msg : protobuf.Message) : M reply_or_error :=
  Routes_Update sender ;;
  if protobuf.Opcode msg =? opCodePing then
    if DisablePing s then ret (None, None)
    else ret (makeMessageBody opCodePong protobuf.Pong)
  else if protobuf.Opcode msg =? opCodePong then
    if DisablePong s then ret (None, None)
    else
      peers <- call_FindNode (sendHandler s) sender BucketSize 8 ;;
      for_range peers Routes_Update ;;
      addresses <- Routes_GetPeerAddresses ;;
      emit {| log.level := log.Info;
              log.fields := [log.Strs "peers" addresses];
              log.message := "Bootstrapped w/ peer(s)." |} ;;
      ret (None, None)
  else if protobuf.Opcode msg =? opCodeLookupRequest then
    if DisableLookup s then ret (None, None)
    else
      closest <- Routes_FindClosestPeers target BucketSize ;;
      let Peers :=
        fold_left (fun acc peerID => acc ++ [protobuf.of_peer peerID])
                  closest [] in
      ret (makeMessageBody opCodeLookupResponse
             (protobuf.LookupNodeResponse Peers))
  else
    ret (None,
         Some (errors.Errorf "Unknown message opcode type: %d"
                 (protobuf.Opcode msg))).

(** The first guard of [ReceiveHandler]:
    [message == nil || message.Body == nil ||
     message.Body.Service != DiscoveryServiceID]. *)
Definition corrupt (message : option protocol.Message) : bool :=
  match message with
  | None => true
  | Some m =>
      match protocol.Body m with
      | None => true
      | Some body => negb (protocol.Service body =? DiscoveryServiceID)
      end
  end.

Definition ReceiveHandler (s : Service) (message : option protocol.Message)
  : M reply_or_error :=
  match message with
  | Some {| protocol.Sender := from; protocol.Recipient := to;
            protocol.Body := Some body |} =>
      if corrupt message then
        ret (None, Some (errors.New "Message is corrupt"))
      else if (Z.of_nat (List.length (protocol.Payload body)) =? 0) then
        ret (None, Some (errors.New "Message body is missing"))
      else
        sender <- Routes_LookupRemoteAddress from ;;
        match sender with
        | None => ret (None, Some (errors.New "Unable to lookup sender"))
        | Some sender =>
            target <- Routes_LookupRemoteAddress to ;;
            match target with
            | None =>
                ret (None, Some (errors.New "Unable to lookup recipient"))
            | Some target =>
                match Unmarshal (protocol.Payload body) with
                | Failed what =>
                    ret (None,
                         Some (errors.Wrap (errors.Foreign what)
                                 "Unable to parse message"))
                | Ok msg =>
                    r <- receive s sender target msg ;;
                    match r with
                    | (_, Some err) => ret (None, Some err)
                    | (reply, None) => ret (reply, None)
                    end
                end
            end
        end
  | _ => ret (None, Some (errors.New "Message is corrupt"))
  end.

Definition PeerDisconnect (s : Service) (target : peer.ID) : M unit :=
  present <- Routes_PeerExists target ;;
  if present then
    Routes_RemovePeer target ;;
    self <- Routes_Self ;;
    emit {| log.level := log.Debug;
            log.fields := [log.Str "address" (peer.Address self);
                           log.Str "peer_address" (peer.Address target)];
            log.message := "Peer has disconnected." |}
  else ret tt.

End Service.

(** ** Words for the statements *)

Section Vocabulary.

Context `{E : Engine} `{W : Wire}.

(** The machine after [calls] more calls, with the table set to [t]. *)
Definition after (m : machine) (t : RoutingTable) (calls : list event)
  : machine :=
  {| table := t; trace := trace m ++ calls |}.

(** [receive] starts with the sender's refresh. *)
Definition refreshed (m : machine) (sender : peer.ID) : machine :=
  after m (Update (table m) sender) [CallUpdate sender].

(** The two address lookups every valid message starts with. *)
Definition resolving (message : protocol.Message) : list event :=
  [CallLookupRemoteAddress (protocol.Sender message);
   CallLookupRemoteAddress (protocol.Recipient message)].

(** A message that passes the checks of [ReceiveHandler]: it has a body
    with the discovery tag and a payload, the table resolves its sender to
    [sender] and its recipient to [target], and the payload decodes to
    [msg]. *)
Definition valid (t : RoutingTable) (message : protocol.Message)
  (sender target : peer.ID) (msg : protobuf.Message) : Prop :=
  exists body,
    protocol.Body message = Some body /\
    protocol.Service body = DiscoveryServiceID /\
    protocol.Payload body <> [] /\
    LookupRemoteAddress t (protocol.Sender message) = Some sender /\
    LookupRemoteAddress t (protocol.Recipient message) = Some target /\
    Unmarshal (protocol.Payload body) = Ok msg.

(** What [ReceiveHandler] does with the pair [receive] hands back. *)
Definition hand_back (r : reply_or_error) : reply_or_error :=
  match r with
  | (_, Some err) => (None, Some err)
  | (reply, None) => (reply, None)
  end.

(** A category switched off: the arm breaks out of the switch. *)
Definition category_disabled (s : Service) (opcode : Z) : Prop :=
  (opcode = opCodePing /\ DisablePing s = true) \/
  (opcode = opCodePong /\ DisablePong s = true) \/
  (opcode = opCodeLookupRequest /\ DisableLookup s = true).

(** The failures raised by the checks of [ReceiveHandler] itself: corrupt
    message, missing payload, unresolved sender, unresolved recipient,
    decode failure. *)
Definition validation_failure (e : errors.error) : bool :=
  match e with
  | errors.New message =>
      existsb (String.eqb message)
        ["Message is corrupt"; "Message body is missing";
         "Unable to lookup sender"; "Unable to lookup recipient"]
  | errors.Wrap (errors.Foreign _) message =>
      String.eqb message "Unable to parse message"
  | _ => false
  end.

(** The failures raised by [receive]: unknown opcode, or a reply that
    could not be built. *)
Definition dispatch_failure (e : errors.error) : bool :=
  match e with
  | errors.Errorf format _ =>
      String.eqb format "Unknown message opcode type: %d"
  | errors.Foreign _ => true
  | errors.Wrap (errors.Foreign _) message =>
      String.eqb message "Unable to marshal"
  | _ => false
  end.

(** Two services agree on what governs a message of this opcode: the flag
    of its category and, for a Pong, the send handler the lookup uses. *)
Definition agree (s s' : Service) (opcode : Z) : Prop :=
  (opcode = opCodePing -> DisablePing s = DisablePing s') /\
  (opcode = opCodePong ->
   DisablePong s = DisablePong s' /\ sendHandler s = sendHandler s') /\
  (opcode = opCodeLookupRequest -> DisableLookup s = DisableLookup s').

(** The calls that only resolve an address. *)
Definition resolves (e : event) : Prop :=
  exists address, e = CallLookupRemoteAddress address.

End Vocabulary.

(** ** A routing table after the written contract *)

Module kademlia.

(** Identity bytes read as an unsigned integer, first byte most
    significant. *)
Definition unsigned (bs : list byte) : Z :=
  fold_left (fun acc b => 256 * acc + Z.of_N (Byte.to_N b)) bs 0.

(** XOR distance between two identities. *)
Definition distance (a b : peer.ID) : Z :=
  Z.lxor (unsigned (peer.Id a)) (unsigned (peer.Id b)).

(** Identity bytes compared lexicographically. *)
Fixpoint bytes_leb (a b : list byte) : bool :=
  match a, b with
  | [], _ => true
  | _ :: _, [] => false
  | x :: a', y :: b' =>
      (Byte.to_N x <? Byte.to_N y)%N ||
      ((Byte.to_N x =? Byte.to_N y)%N && bytes_leb a' b')
  end.

(** Peers are equal when their identity bytes are. *)
Definition Equals (p q : peer.ID) : bool :=
  if list_eq_dec byte_eq_dec (peer.Id p) (peer.Id q) then true else false.

(** [p] comes no later than [q] in the order of nearness to [target]:
    smaller distance first, equal distances by identity bytes. *)
Definition closer (target p q : peer.ID) : bool :=
  (distance p target <? distance q target) ||
  ((distance p target =? distance q target) &&
   bytes_leb (peer.Id p) (peer.Id q)).

Definition no_farther (target p q : peer.ID) : Prop :=
  distance p target < distance q target \/
  (distance p target = distance q target /\
   bytes_leb (peer.Id p) (peer.Id q) = true).

Section Sort.

Variable A : Type.
Variable leb : A -> A -> bool.

(** [a] may come before [b]. *)
Definition precedes (a b : A) : Prop := leb a b = true.

Fixpoint insert (x : A) (l : list A) : list A :=
  match l with
  | [] => [x]
  | y :: l' => if leb x y then x :: l else y :: insert x l'
  end.

Fixpoint sort (l : list A) : list A :=
  match l with
  | [] => []
  | x :: l' => insert x (sort l')
  end.

End Sort.

(** Modelled from the spec: [dht.RoutingTable], after spec 3 and 4.3.  The
    table is keyed by the local identity, which is never a member; the
    known peers are kept most recently refreshed first, one entry per
    identity, and are grouped in buckets by their distance from the local
    identity, each bucket holding at most the bucket size. *)
Record Table := mkTable { self : peer.ID; peers : list peer.ID }.

(** Modelled from the spec: create-for-self. *)
Definition CreateRoutingTable (selfID : peer.ID) : Table :=
  {| self := selfID; peers := [] |}.

Definition others (target : peer.ID) (l : list peer.ID) : list peer.ID :=
  filter (fun q => negb (Equals q target)) l.

(** Modelled from the spec: the bucket of a peer, the range its distance
    from the local identity falls in: distances from 2^i up to 2^(i+1)
    share bucket i. *)
Definition bucket (local p : peer.ID) : Z := Z.log2 (distance p local).

(** The known peers of bucket [i], and those of the bucket of [target]. *)
Definition crowd (t : Table) (i : Z) : list peer.ID :=
  filter (fun q => bucket (self t) q =? i) (peers t).

Definition mates (t : Table) (target : peer.ID) : list peer.ID :=
  crowd t (bucket (self t) target).

(** Modelled from the spec: lookup-by-address, the known peer at that
    address if there is one. *)
Definition LookupRemoteAddress (t : Table) (address : string)
  : option peer.ID :=
  find (fun p => String.eqb (peer.Address p) address) (peers t).

(** Modelled from the spec: nearest(target, count), the [count] known peers
    nearest to [target], nearest first (spec 4.2 for the metric and the
    tie-break). *)
Definition FindClosestPeers (t : Table) (target : peer.ID) (count : Z)
  : list peer.ID :=
  firstn (Z.to_nat count) (sort (closer target) (peers t)).

(** Modelled from the spec: exists. *)
Definition PeerExists (t : Table) (target : peer.ID) : bool :=
  existsb (Equals target) (peers t).

(** Modelled from the spec: remove. *)
Definition RemovePeer (t : Table) (target : peer.ID) : Table :=
  {| self := self t; peers := others target (peers t) |}.

(** Modelled from the spec: all-addresses. *)
Definition GetPeerAddresses (t : Table) : list string :=
  map peer.Address (peers t).

(** [target] put in front as the most recently refreshed peer, in place of
    any entry of its identity. *)
Definition put (t : Table) (target : peer.ID) : Table :=
  {| self := self t; peers := target :: others target (peers t) |}.

(** Modelled from the spec: what the table does with a newcomer whose
    bucket is full is its own policy, which the spec does not fix.  A
    policy is given the peers of the full bucket, most recently refreshed
    first, and the newcomer; it names the peer that makes way, or none
    when the newcomer is turned away. *)
Definition eviction : Type := list peer.ID -> peer.ID -> option peer.ID.

(** Modelled from the spec: upsert, the idempotent insert-or-refresh, with
    bucket size [K] and eviction policy [victim].  The local identity is
    not taken in; a known peer is refreshed; a newcomer is taken in when
    its bucket has room, and otherwise only in place of the peer the policy
    names. *)
Definition Update (K : Z) (victim : eviction) (t : Table) (target : peer.ID)
  : Table :=
  if Equals target (self t) then t
  else if PeerExists t target then put t target
  else if Z.of_nat (List.length (mates t target)) <? K then put t target
  else
    match victim (mates t target) target with
    | Some old =>
        if existsb (Equals old) (mates t target)
        then put (RemovePeer t old) target
        else t
    | None => t
    end.

(** The table with bucket size [K] and eviction policy [victim], as the
    service sees it. *)
Definition ops (K : Z) (victim : eviction) : dht.Ops :=
  {| dht.RoutingTable := Table;
     dht.BucketSize := K;
     dht.CreateRoutingTable := CreateRoutingTable;
     dht.Self := self;
     dht.Update := Update K victim;
     dht.LookupRemoteAddress := LookupRemoteAddress;
     dht.FindClosestPeers := FindClosestPeers;
     dht.PeerExists := PeerExists;
     dht.RemovePeer := RemovePeer;
     dht.GetPeerAddresses := GetPeerAddresses |}.

(** The invariant of the table: the local identity is not a member and no
    identity is held twice. *)
Definition well_formed (t : Table) : Prop :=
  PeerExists t (self t) = false /\ NoDup (map peer.Id (peers t)).

(** No bucket holds more than [K] peers. *)
Definition within_capacity (K : Z) (t : Table) : Prop :=
  forall i, Z.of_nat (List.length (crowd t i)) <= K.

(** An upsert of [target] that meets no full bucket: the local identity, a
    known peer, or a newcomer whose bucket has room. *)
Definition has_room (K : Z) (t : Table) (target : peer.ID) : bool :=
  Equals target (self t) || PeerExists t target ||
  (Z.of_nat (List.length (mates t target)) <? K).

(** The upsert where there is room, whatever the policy. *)
Definition place (t : Table) (target : peer.ID) : Table :=
  if Equals target (self t) then t else put t target.

(** No upsert of [targets], made in turn, meets a full bucket. *)
Fixpoint roomy (K : Z) (t : Table) (targets : list peer.ID) : bool :=
  match targets with
  | [] => true
  | p :: rest => has_room K t p && roomy K (place t p) rest
  end.

End kademlia.

(** ** A small network to run the service on *)

Module example.

(** A wire format for the examples: one opcode byte, then the record. *)
Definition opcode_byte (opcode : Z) : option byte :=
  if (0 <=? opcode) && (opcode <? 256) then Byte.of_N (Z.to_N opcode)
  else None.

Definition encode (content : protobuf.content) : list byte :=
  match content with
  | protobuf.Pong => []
  | protobuf.LookupNodeResponse Peers =>
      flat_map (fun id => list_byte_of_string (protobuf.Address id) ++
                          x00 :: protobuf.Id id) Peers
  end.

Definition wire : Wire :=
  {| DiscoveryServiceID := 5;
     opCodePing := 1;
     opCodePong := 2;
     opCodeLookupRequest := 3;
     opCodeLookupResponse := 4;
     toProtobufMessage := fun opcode content =>
       Ok {| protobuf.Opcode := opcode; protobuf.Contents := encode content |};
     Marshal := fun msg =>
       match opcode_byte (protobuf.Opcode msg) with
       | Some b => Ok (b :: protobuf.Contents msg)
       | None => Failed "opcode out of range"
       end;
     Unmarshal := fun payload =>
       match payload with
       | [] => Failed "unexpected EOF"
       | b :: rest =>
           Ok {| protobuf.Opcode := Z.of_N (Byte.to_N b);
                 protobuf.Contents := rest |}
       end |}.

(** A scripted lookup engine: the send handler is the list of peers a
    lookup through it comes back with. *)
(** The policy that keeps the old peers: a newcomer to a full bucket is
    turned away. *)
Definition keep_old : kademlia.eviction := fun _ _ => None.

Definition engine (K : Z) : @Engine (kademlia.ops K keep_old) :=
  {| SendHandler := list peer.ID;
     FindNode := fun _ sh _ _ _ => sh |}.

Definition home : peer.ID :=
  {| peer.Address := "10.0.0.1:3000"; peer.Id := [x10] |}.
Definition alice : peer.ID :=
  {| peer.Address := "10.0.0.2:3000"; peer.Id := [x11] |}.
Definition bob : peer.ID :=
  {| peer.Address := "10.0.0.3:3000"; peer.Id := [x12] |}.
Definition carol : peer.ID :=
  {| peer.Address := "10.0.0.4:3000"; peer.Id := [x13] |}.
Definition dave : peer.ID :=
  {| peer.Address := "10.0.0.5:3000"; peer.Id := [x1f] |}.

(** The node [home] with bucket size 2; lookups come back with [carol] and
    [home] itself. *)
Definition node : @Service (kademlia.ops 2 keep_old) (engine 2) :=
  fst (@NewService (kademlia.ops 2 keep_old) (engine 2) [carol; home] home).

(** The same node with the liveness probes switched off. *)
Definition quiet : @Service (kademlia.ops 2 keep_old) (engine 2) :=
  {| DisablePing := true; DisablePong := false; DisableLookup := false;
     sendHandler := sendHandler node |}.

(** Its state once [alice], [bob] and [dave] are known. *)
Definition booted : @machine (kademlia.ops 2 keep_old) :=
  @mkMachine (kademlia.ops 2 keep_old)
    (fold_left (kademlia.Update 2 keep_old) [alice; bob; dave]
       (kademlia.CreateRoutingTable home))
    [].

(** Three peers of one bucket of [home], and a node whose lookups come
    back with them. *)
Definition erin : peer.ID :=
  {| peer.Address := "10.0.0.6:3000"; peer.Id := [x14] |}.
Definition frank : peer.ID :=
  {| peer.Address := "10.0.0.7:3000"; peer.Id := [x15] |}.
Definition grace : peer.ID :=
  {| peer.Address := "10.0.0.8:3000"; peer.Id := [x16] |}.

Definition crowded : @Service (kademlia.ops 2 keep_old) (engine 2) :=
  @mkService (kademlia.ops 2 keep_old) (engine 2) false false false
    [erin; frank; grace].

(** The node with the liveness acknowledgements switched off. *)
Definition deaf : @Service (kademlia.ops 2 keep_old) (engine 2) :=
  {| DisablePing := false; DisablePong := true; DisableLookup := false;
     sendHandler := sendHandler node |}.

Definition envelope (from to : peer.ID) (opcode : byte) : protocol.Message :=
  {| protocol.Sender := peer.Address from;
     protocol.Recipient := peer.Address to;
     protocol.Body := Some {| protocol.Service := 5;
                              protocol.Payload := [opcode] |} |}.

Definition decoded (opcode : Z) : protobuf.Message :=
  {| protobuf.Opcode := opcode; protobuf.Contents := [] |}.

(** The same wire format, except that a payload starting with byte ff
    does not decode. *)
Definition picky : Wire :=
  {| DiscoveryServiceID := @DiscoveryServiceID wire;
     opCodePing := @opCodePing wire;
     opCodePong := @opCodePong wire;
     opCodeLookupRequest := @opCodeLookupRequest wire;
     opCodeLookupResponse := @opCodeLookupResponse wire;
     toProtobufMessage := @toProtobufMessage wire;
     Marshal := @Marshal wire;
     Unmarshal := fun payload =>
       match payload with
       | xff :: _ => Failed "illegal tag"
       | _ => @Unmarshal wire payload
       end |}.

End example.

(** ** Running the steps *)

Section Steps.

Context `{E : Engine} `{W : Wire}.

Local Open Scope go_scope.

Lemma after_after (m : machine) t1 c1 t2 c2 :
  after (after m t1 c1) t2 c2 = after m t2 (c1 ++ c2).
Proof. unfold after; simpl. now rewrite <- app_assoc. Qed.

Lemma for_range_Update (peers : list peer.ID) (m : machine) :
  for_range peers Routes_Update m =
  (tt, after m (fold_left Update peers (table m)) (map CallUpdate peers)).
Proof.
  revert m. induction peers as [|p peers IH]; intros m.
  - simpl. unfold ret, after. simpl. rewrite app_nil_r. now destruct m.
  - simpl. unfold bind, Routes_Update, write. rewrite IH.
    unfold after. simpl. now rewrite <- app_assoc.
Qed.

(** The loop that fills [response.Peers] is a map. *)
Lemma append_each_is_map (closest : list peer.ID) (acc : list protobuf.ID) :
  fold_left (fun acc peerID => acc ++ [protobuf.of_peer peerID]) closest acc =
  acc ++ map protobuf.of_peer closest.
Proof.
  revert acc. induction closest as [|p closest IH]; intros acc; simpl.
  - now rewrite app_nil_r.
  - rewrite IH, <- app_assoc. reflexivity.
Qed.

(** [makeMessageBody] returns a body or an error, never both or neither. *)
Lemma makeMessageBody_cases (opcode : Z) (content : protobuf.content) :
  (exists msg msgBytes,
      toProtobufMessage opcode content = Ok msg /\ Marshal msg = Ok msgBytes /\
      makeMessageBody opcode content =
      (Some {| protocol.Service := DiscoveryServiceID;
               protocol.Payload := msgBytes |}, None)) \/
  (exists what,
      makeMessageBody opcode content = (None, Some (errors.Foreign what))) \/
  (exists what,
      makeMessageBody opcode content =
      (None, Some (errors.Wrap (errors.Foreign what) "Unable to marshal"))).
Proof.
  unfold makeMessageBody.
  destruct (toProtobufMessage opcode content) as [msg|what].
  - destruct (Marshal msg) as [msgBytes|what'] eqn:HM.
    + left. now exists msg, msgBytes.
    + right; right. now exists what'.
  - right; left. now exists what.
Qed.

Lemma hand_back_makeMessageBody (opcode : Z) (content : protobuf.content) :
  hand_back (makeMessageBody opcode content) = makeMessageBody opcode content.
Proof.
  destruct (makeMessageBody_cases opcode content)
    as [(msg & bs & _ & _ & ->) | [(what & ->) | (what & ->)]]; reflexivity.
Qed.

Lemma ReceiveHandler_valid (s : Service) (m : machine)
  (message : protocol.Message) (sender target : peer.ID)
  (msg : protobuf.Message) :
  valid (table m) message sender target msg ->
  ReceiveHandler s (Some message) m =
  let (r, m') := receive s sender target msg
                   (after m (table m) (resolving message)) in
  (hand_back r, m').
Proof.
  intros (body & HB & HS & HP & Hs & Ht & HU).
  destruct message as [from to b]; simpl in *. subst b.
  unfold ReceiveHandler, corrupt. simpl.
  rewrite HS, Z.eqb_refl. simpl.
  destruct (protocol.Payload body) as [|b0 bs] eqn:Hpay; [congruence|].
  replace (Z.of_nat (List.length (b0 :: bs)) =? 0) with false
    by (symmetry; apply Z.eqb_neq; simpl List.length; lia).
  unfold bind at 1. unfold Routes_LookupRemoteAddress at 1. unfold read at 1.
  simpl. rewrite Hs.
  unfold bind at 1. unfold Routes_LookupRemoteAddress at 1. unfold read at 1.
  simpl. rewrite Ht, HU.
  unfold bind at 1. unfold after, resolving. simpl.
  rewrite <- app_assoc. simpl.
  destruct (receive s sender target msg _) as [[reply [err|]] m']; reflexivity.
Qed.

End Steps.

(** ** The dispatch step, for any routing table, engine and wire format *)

Section Dispatch.

Context `{E : Engine} `{W : Wire}.

(** The four opcodes are one enumeration: no two share a value. *)
Hypothesis opcodes_distinct :
  NoDup [opCodePing; opCodePong; opCodeLookupRequest; opCodeLookupResponse].

Lemma pong_not_ping : (opCodePong =? opCodePing) = false.
Proof.
  apply Z.eqb_neq. intros Heq. inversion opcodes_distinct as [|? ? Hn _].
  apply Hn. rewrite <- Heq. simpl. auto.
Qed.

Lemma lookup_not_ping : (opCodeLookupRequest =? opCodePing) = false.
Proof.
  apply Z.eqb_neq. intros Heq. inversion opcodes_distinct as [|? ? Hn _].
  apply Hn. rewrite <- Heq. simpl. auto.
Qed.

Lemma lookup_not_pong : (opCodeLookupRequest =? opCodePong) = false.
Proof.
  apply Z.eqb_neq. intros Heq.
  inversion opcodes_distinct as [|? ? _ Hrest].
  inversion Hrest as [|? ? Hn _]. apply Hn. rewrite <- Heq. simpl. auto.
Qed.

Lemma response_not_handled :
  ((opCodeLookupResponse =? opCodePing) = false) /\
  ((opCodeLookupResponse =? opCodePong) = false) /\
  ((opCodeLookupResponse =? opCodeLookupRequest) = false).
Proof.
  inversion opcodes_distinct as [|? ? N1 R1].
  inversion R1 as [|? ? N2 R2]. inversion R2 as [|? ? N3 _].
  repeat split; apply Z.eqb_neq; intros Heq.
  - apply N1. rewrite <- Heq. simpl. auto.
  - apply N2. rewrite <- Heq. simpl. auto.
  - apply N3. rewrite <- Heq. simpl. auto.
Qed.

(** The default arm of the switch. *)
Lemma receive_default (s : Service) (sender target : peer.ID)
  (msg : protobuf.Message) (m : machine) :
  (protobuf.Opcode msg =? opCodePing) = false ->
  (protobuf.Opcode msg =? opCodePong) = false ->
  (protobuf.Opcode msg =? opCodeLookupRequest) = false ->
  receive s sender target msg m =
  ((None, Some (errors.Errorf "Unknown message opcode type: %d"
                  (protobuf.Opcode msg))),
   refreshed m sender).
Proof.
  intros H1 H2 H3. unfold receive, bind, Routes_Update, write.
  rewrite H1, H2, H3. reflexivity.
Qed.

Lemma receive_disabled (s : Service) (sender target : peer.ID)
  (msg : protobuf.Message) (m : machine) :
  category_disabled s (protobuf.Opcode msg) ->
  receive s sender target msg m = ((None, None), refreshed m sender).
Proof.
  unfold receive, bind, Routes_Update, write.
  intros [[-> Hd] | [[-> Hd] | [-> Hd]]].
  - rewrite Z.eqb_refl, Hd. reflexivity.
  - rewrite pong_not_ping, Z.eqb_refl, Hd. reflexivity.
  - rewrite lookup_not_ping, lookup_not_pong, Z.eqb_refl, Hd. reflexivity.
Qed.

(** C3: a valid message whose opcode is none of Ping, Pong, LookupRequest
    and LookupResponse gets no reply and the unknown-opcode error carrying
    that opcode; by then the sender has been refreshed. *)
Theorem unknown_opcode_is_an_error (s : Service) (m : machine)
  (message : protocol.Message) (sender target : peer.ID)
  (msg : protobuf.Message) :
  valid (table m) message sender target msg ->
  ~ In (protobuf.Opcode msg)
       [opCodePing; opCodePong; opCodeLookupRequest; opCodeLookupResponse] ->
  ReceiveHandler s (Some message) m =
  ((None, Some (errors.Errorf "Unknown message opcode type: %d"
                  (protobuf.Opcode msg))),
   after m (Update (table m) sender)
     (resolving message ++ [CallUpdate sender])).
Proof.
  intros Hv Hout. rewrite (ReceiveHandler_valid s m Hv).
  rewrite receive_default.
  - unfold refreshed. rewrite after_after. reflexivity.
  - apply Z.eqb_neq. intros Heq. apply Hout. simpl. auto.
  - apply Z.eqb_neq. intros Heq. apply Hout. simpl. auto.
  - apply Z.eqb_neq. intros Heq. apply Hout. simpl. auto.
Qed.

(** C9: LookupResponse has no arm in the switch: a valid LookupResponse
    has its sender refreshed and is then answered with the unknown-opcode
    error, like any opcode outside the protocol. *)
Theorem lookup_response_is_unknown_opcode (s : Service) (m : machine)
  (message : protocol.Message) (sender target : peer.ID)
  (msg : protobuf.Message) :
  valid (table m) message sender target msg ->
  protobuf.Opcode msg = opCodeLookupResponse ->
  ReceiveHandler s (Some message) m =
  ((None, Some (errors.Errorf "Unknown message opcode type: %d"
                  opCodeLookupResponse)),
   after m (Update (table m) sender)
     (resolving message ++ [CallUpdate sender])).
Proof.
  intros Hv Hop. rewrite (ReceiveHandler_valid s m Hv).
  destruct response_not_handled as (H1 & H2 & H3).
  rewrite receive_default; rewrite Hop; try assumption.
  unfold refreshed. rewrite after_after. reflexivity.
Qed.

(** C4: a valid Ping with the category enabled: the sender is refreshed,
    and then the reply is the body made of the Pong opcode and the empty
    Pong record; when that record encodes, the result is this one body and
    no error. *)
Theorem ping_is_answered_with_pong (s : Service) (m : machine)
  (message : protocol.Message) (sender target : peer.ID)
  (msg : protobuf.Message) :
  valid (table m) message sender target msg ->
  protobuf.Opcode msg = opCodePing ->
  DisablePing s = false ->
  ReceiveHandler s (Some message) m =
  (makeMessageBody opCodePong protobuf.Pong,
   after m (Update (table m) sender)
     (resolving message ++ [CallUpdate sender])) /\
  forall pong payload,
    toProtobufMessage opCodePong protobuf.Pong = Ok pong ->
    Marshal pong = Ok payload ->
    fst (ReceiveHandler s (Some message) m) =
    (Some {| protocol.Service := DiscoveryServiceID;
             protocol.Payload := payload |}, None).
Proof.
  intros Hv Hop Hen.
  assert (Hrun : ReceiveHandler s (Some message) m =
    (makeMessageBody opCodePong protobuf.Pong,
     after m (Update (table m) sender)
       (resolving message ++ [CallUpdate sender]))).
  { rewrite (ReceiveHandler_valid s m Hv).
    unfold receive, bind, Routes_Update, write.
    rewrite Hop, Z.eqb_refl, Hen. unfold ret.
    rewrite hand_back_makeMessageBody. unfold after. simpl.
    now rewrite <- app_assoc. }
  split; [exact Hrun|].
  intros pong payload Hp Hm. rewrite Hrun. simpl.
  unfold makeMessageBody. now rewrite Hp, Hm.
Qed.

(** C5: a valid message of a disabled category (Ping, Pong or
    LookupRequest): no reply and no error; the table is the old one with
    the sender refreshed, and that refresh is the only call made after the
    two address lookups. *)
Theorem disabled_category_only_refreshes_sender (s : Service) (m : machine)
  (message : protocol.Message) (sender target : peer.ID)
  (msg : protobuf.Message) :
  valid (table m) message sender target msg ->
  category_disabled s (protobuf.Opcode msg) ->
  ReceiveHandler s (Some message) m =
  ((None, None),
   after m (Update (table m) sender)
     (resolving message ++ [CallUpdate sender])).
Proof.
  intros Hv Hd. rewrite (ReceiveHandler_valid s m Hv).
  rewrite (receive_disabled _ _ _ _ Hd).
  unfold refreshed. rewrite after_after. reflexivity.
Qed.

(** The Pong arm: the lookup for the sender, the merge of what it
    returns, and the log record. *)
Lemma receive_pong (s : Service) (sender target : peer.ID)
  (msg : protobuf.Message) (m : machine) :
  protobuf.Opcode msg = opCodePong ->
  DisablePong s = false ->
  let routes := Update (table m) sender in
  let peers := FindNode routes (sendHandler s) sender BucketSize 8 in
  let merged := fold_left Update peers routes in
  receive s sender target msg m =
  ((None, None),
   after m merged
     ([CallUpdate sender; CallFindNode sender BucketSize 8] ++
      map CallUpdate peers ++
      [CallGetPeerAddresses;
       Logged {| log.level := log.Info;
                 log.fields := [log.Strs "peers" (GetPeerAddresses merged)];
                 log.message := "Bootstrapped w/ peer(s)." |}])).
Proof.
  intros Hop Hen. cbv zeta.
  unfold receive. unfold bind at 1. unfold Routes_Update at 1, write at 1.
  rewrite Hop, pong_not_ping, Z.eqb_refl, Hen.
  unfold bind at 1. unfold call_FindNode, read at 1. simpl table.
  unfold bind at 1. rewrite for_range_Update. simpl table.
  unfold bind, Routes_GetPeerAddresses, read, emit, write, ret, after. simpl.
  repeat rewrite <- app_assoc. reflexivity.
Qed.

(** C6: a valid Pong with the category enabled: after the sender's refresh
    the lookup engine is called with the sender as target, [BucketSize] as
    count and 8 as factor; every peer it returns is upserted, in order; the
    addresses are logged; there is no reply and no error. *)
Theorem pong_runs_lookup_and_merges (s : Service) (m : machine)
  (message : protocol.Message) (sender target : peer.ID)
  (msg : protobuf.Message) :
  valid (table m) message sender target msg ->
  protobuf.Opcode msg = opCodePong ->
  DisablePong s = false ->
  let routes := Update (table m) sender in
  let peers := FindNode routes (sendHandler s) sender BucketSize 8 in
  let merged := fold_left Update peers routes in
  ReceiveHandler s (Some message) m =
  ((None, None),
   after m merged
     (resolving message ++
      [CallUpdate sender; CallFindNode sender BucketSize 8] ++
      map CallUpdate peers ++
      [CallGetPeerAddresses;
       Logged {| log.level := log.Info;
                 log.fields := [log.Strs "peers" (GetPeerAddresses merged)];
                 log.message := "Bootstrapped w/ peer(s)." |}])).
Proof.
  intros Hv Hop Hen. cbv zeta. rewrite (ReceiveHandler_valid s m Hv).
  rewrite (receive_pong s sender target msg _ Hop Hen). cbv zeta.
  simpl hand_back. rewrite after_after. reflexivity.
Qed.

(** The LookupRequest arm, for any routing table: the reply is built from
    the answer of the nearest-peers query for the resolved recipient, asked
    after the sender's refresh. *)
Lemma lookup_request_reply (s : Service) (m : machine)
  (message : protocol.Message) (sender target : peer.ID)
  (msg : protobuf.Message) :
  valid (table m) message sender target msg ->
  protobuf.Opcode msg = opCodeLookupRequest ->
  DisableLookup s = false ->
  let routes := Update (table m) sender in
  let closest := FindClosestPeers routes target BucketSize in
  ReceiveHandler s (Some message) m =
  (makeMessageBody opCodeLookupResponse
     (protobuf.LookupNodeResponse (map protobuf.of_peer closest)),
   after m routes
     (resolving message ++
      [CallUpdate sender; CallFindClosestPeers target BucketSize])).
Proof.
  intros Hv Hop Hen. cbv zeta. rewrite (ReceiveHandler_valid s m Hv).
  unfold receive. unfold bind at 1. unfold Routes_Update at 1, write at 1.
  rewrite Hop, lookup_not_ping, lookup_not_pong, Z.eqb_refl, Hen.
  unfold bind, Routes_FindClosestPeers, read, ret. simpl table.
  rewrite append_each_is_map. simpl app at 1.
  rewrite hand_back_makeMessageBody. unfold after. simpl.
  repeat rewrite <- app_assoc. reflexivity.
Qed.

End Dispatch.

(** ** Errors and replies of the entry point, whatever the message *)

Section Outcomes.

Context `{E : Engine} `{W : Wire}.

Lemma mutations_app (tr calls : list event) :
  mutations (tr ++ calls) = mutations tr ++ mutations calls.
Proof. apply filter_app. Qed.

Lemma makeMessageBody_error (opcode : Z) (content : protobuf.content)
  (e : errors.error) :
  snd (makeMessageBody opcode content) = Some e ->
  dispatch_failure e = true /\ validation_failure e = false.
Proof.
  destruct (makeMessageBody_cases opcode content)
    as [(msg & bs & _ & _ & ->) | [(what & ->) | (what & ->)]];
    simpl; intros He; inversion He; subst; split; reflexivity.
Qed.

Lemma makeMessageBody_reply (opcode : Z) (content : protobuf.content)
  (b : protocol.MessageBody) :
  fst (makeMessageBody opcode content) = Some b ->
  protocol.Service b = DiscoveryServiceID.
Proof.
  destruct (makeMessageBody_cases opcode content)
    as [(msg & bs & _ & _ & ->) | [(what & ->) | (what & ->)]];
    simpl; intros Hb; inversion Hb; subst; reflexivity.
Qed.

Lemma hand_back_error (r : reply_or_error) : snd (hand_back r) = snd r.
Proof. destruct r as [reply [err|]]; reflexivity. Qed.

Lemma hand_back_reply (r : reply_or_error) (b : protocol.MessageBody) :
  fst (hand_back r) = Some b -> fst r = Some b.
Proof. destruct r as [reply [err|]]; simpl; [discriminate|auto]. Qed.

(** An error of [receive] comes after the sender's refresh and nothing
    else that changes the table. *)
Lemma receive_error (s : Service) (sender target : peer.ID)
  (msg : protobuf.Message) (m : machine) (e : errors.error) :
  snd (fst (receive s sender target msg m)) = Some e ->
  dispatch_failure e = true /\ validation_failure e = false /\
  table (snd (receive s sender target msg m)) = Update (table m) sender /\
  mutations (trace (snd (receive s sender target msg m))) =
  mutations (trace m) ++ [CallUpdate sender].
Proof.
  unfold receive. unfold bind at 1. unfold Routes_Update at 1, write at 1.
  destruct (protobuf.Opcode msg =? opCodePing).
  { destruct (DisablePing s); unfold ret; simpl; [discriminate|].
    intros He. destruct (makeMessageBody_error _ _ He) as [Hd Hv].
    rewrite mutations_app. auto. }
  destruct (protobuf.Opcode msg =? opCodePong).
  { destruct (DisablePong s); unfold ret; simpl; [discriminate|].
    unfold bind at 1. unfold call_FindNode, read at 1.
    unfold bind at 1. rewrite for_range_Update.
    unfold bind, Routes_GetPeerAddresses, read, emit, write, ret. simpl.
    discriminate. }
  destruct (protobuf.Opcode msg =? opCodeLookupRequest).
  { destruct (DisableLookup s); unfold ret; simpl; [discriminate|].
    unfold bind, Routes_FindClosestPeers, read. simpl.
    intros He. destruct (makeMessageBody_error _ _ He) as [Hd Hv].
    rewrite !mutations_app. simpl. rewrite app_nil_r. auto. }
  unfold ret. simpl. intros He. inversion He; subst.
  rewrite mutations_app. auto.
Qed.

(** A reply of [receive] is a body made by [makeMessageBody]. *)
Lemma receive_reply (s : Service) (sender target : peer.ID)
  (msg : protobuf.Message) (m : machine) (b : protocol.MessageBody) :
  fst (fst (receive s sender target msg m)) = Some b ->
  protocol.Service b = DiscoveryServiceID.
Proof.
  unfold receive. unfold bind at 1. unfold Routes_Update at 1, write at 1.
  destruct (protobuf.Opcode msg =? opCodePing).
  { destruct (DisablePing s); unfold ret; simpl; [discriminate|].
    apply makeMessageBody_reply. }
  destruct (protobuf.Opcode msg =? opCodePong).
  { destruct (DisablePong s); unfold ret; simpl; [discriminate|].
    unfold bind at 1. unfold call_FindNode, read at 1.
    unfold bind at 1. rewrite for_range_Update.
    unfold bind, Routes_GetPeerAddresses, read, emit, write, ret. simpl.
    discriminate. }
  destruct (protobuf.Opcode msg =? opCodeLookupRequest).
  { destruct (DisableLookup s); unfold ret; simpl; [discriminate|].
    unfold bind, Routes_FindClosestPeers, read. simpl.
    apply makeMessageBody_reply. }
  unfold ret. simpl. discriminate.
Qed.

(** The entry point either rejects the message, having only read the
    table, or the message is valid and goes to [receive]. *)
Lemma ReceiveHandler_cases (s : Service) (message : option protocol.Message)
  (m : machine) :
  (exists e calls,
      validation_failure e = true /\ mutations calls = [] /\
      ReceiveHandler s message m = ((None, Some e), after m (table m) calls)) \/
  (exists message' sender target msg,
      message = Some message' /\
      valid (table m) message' sender target msg).
Proof.
  destruct message as [[from to [body|]]|].
  2, 3: left; exists (errors.New "Message is corrupt"), [];
        repeat split; unfold ReceiveHandler, ret, after; simpl;
        rewrite app_nil_r; now destruct m.
  destruct (protocol.Service body =? DiscoveryServiceID) eqn:Htag.
  2: { left. exists (errors.New "Message is corrupt"), [].
       repeat split. unfold ReceiveHandler, corrupt, ret, after. simpl.
       rewrite Htag. simpl. rewrite app_nil_r. now destruct m. }
  destruct (protocol.Payload body) as [|b0 bs] eqn:Hpay.
  { left. exists (errors.New "Message body is missing"), [].
    repeat split. unfold ReceiveHandler, corrupt, ret, after. simpl.
    rewrite Htag, Hpay. simpl. rewrite app_nil_r. now destruct m. }
  assert (Hlen : (Z.of_nat (List.length (b0 :: bs)) =? 0) = false)
    by (apply Z.eqb_neq; simpl List.length; lia).
  destruct (LookupRemoteAddress (table m) from) as [sender|] eqn:Hs.
  2: { left. exists (errors.New "Unable to lookup sender"),
         [CallLookupRemoteAddress from].
       repeat split. unfold ReceiveHandler, corrupt. simpl.
       rewrite Htag, Hpay, Hlen. simpl.
       unfold bind, Routes_LookupRemoteAddress, read. now rewrite Hs. }
  destruct (LookupRemoteAddress (table m) to) as [target|] eqn:Ht.
  2: { left. exists (errors.New "Unable to lookup recipient"),
         [CallLookupRemoteAddress from; CallLookupRemoteAddress to].
       repeat split. unfold ReceiveHandler, corrupt. simpl.
       rewrite Htag, Hpay, Hlen. simpl.
       unfold bind, Routes_LookupRemoteAddress, read. simpl.
       rewrite Hs. simpl. rewrite Ht. unfold ret, after.
       now rewrite <- app_assoc. }
  destruct (Unmarshal (protocol.Payload body)) as [msg|what] eqn:HU.
  2: { left.
       exists (errors.Wrap (errors.Foreign what) "Unable to parse message"),
         [CallLookupRemoteAddress from; CallLookupRemoteAddress to].
       repeat split. unfold ReceiveHandler, corrupt. simpl.
       rewrite Htag, Hpay, Hlen. simpl.
       unfold bind, Routes_LookupRemoteAddress, read. simpl.
       rewrite Hs. simpl. rewrite Ht. rewrite <- Hpay, HU. unfold ret, after.
       now rewrite <- app_assoc. }
  right. exists (protocol.mkMessage from to (Some body)), sender, target, msg.
  split; [reflexivity|]. exists body. simpl.
  apply Z.eqb_eq in Htag. rewrite Hpay.
  repeat split; try assumption; try discriminate. now rewrite <- Hpay.
Qed.

(** C2, as the code has it: when the entry point returns an error, either
    it is one of the failures of its own checks (corrupt message, missing
    payload, unresolved sender or recipient, decode failure) and then the
    table is the one it was and no upsert, refresh or removal was called;
    or it is an error of the dispatch step (unknown opcode, reply not
    built), and then the resolved sender was upserted first, which is the
    only change. *)
Theorem error_leaves_table_or_only_sender_refresh (s : Service)
  (message : option protocol.Message) (m : machine) (e : errors.error) :
  snd (fst (ReceiveHandler s message m)) = Some e ->
  let m' := snd (ReceiveHandler s message m) in
  (validation_failure e = true /\ dispatch_failure e = false /\
   table m' = table m /\
   mutations (trace m') = mutations (trace m)) \/
  (validation_failure e = false /\ dispatch_failure e = true /\
   exists message' sender,
     message = Some message' /\
     LookupRemoteAddress (table m) (protocol.Sender message') = Some sender /\
     table m' = Update (table m) sender /\
     mutations (trace m') = mutations (trace m) ++ [CallUpdate sender]).
Proof.
  intros He m'. subst m'.
  destruct (ReceiveHandler_cases s message m)
    as [(e' & calls & Hv & Hc & Hrun)
       | (message' & sender & target & msg & -> & Hvalid)].
  - rewrite Hrun in *. simpl in He. inversion He; subst e'. left.
    simpl. rewrite mutations_app, Hc, app_nil_r.
    repeat split; try assumption.
    destruct e as [msg'|[| | |w] msg'| |]; simpl in Hv; try discriminate.
    + reflexivity.
    + apply String.eqb_eq in Hv. subst msg'. reflexivity.
  - right. rewrite (ReceiveHandler_valid s m Hvalid) in *.
    destruct (receive s sender target msg
                (after m (table m) (resolving message'))) as [r m1] eqn:Hrec.
    simpl in He. rewrite hand_back_error in He.
    pose proof (@receive_error s sender target msg
                  (after m (table m) (resolving message')) e) as Herr.
    rewrite Hrec in Herr. simpl in Herr.
    destruct (Herr He) as (Hd & Hv & Ht & Hm).
    repeat split; try assumption.
    exists message', sender. destruct Hvalid as (body & _ & _ & _ & Hs & _).
    repeat split; try assumption. simpl.
    rewrite Hm. rewrite mutations_app. simpl. now rewrite app_nil_r.
Qed.

(** C10: every reply body, whether made by [makeMessageBody] or returned by
    the entry point, carries the discovery service tag, so a message with
    that body passes the entry point's first check. *)
Theorem replies_carry_service_tag (s : Service)
  (message : option protocol.Message) (m : machine)
  (b : protocol.MessageBody) :
  fst (fst (ReceiveHandler s message m)) = Some b \/
  (exists opcode content, fst (makeMessageBody opcode content) = Some b) ->
  protocol.Service b = DiscoveryServiceID /\
  forall from to,
    corrupt (Some (protocol.mkMessage from to (Some b))) = false.
Proof.
  intros Hb.
  assert (Htag : protocol.Service b = DiscoveryServiceID).
  { destruct Hb as [Hb | (opcode & content & Hb)].
    2: now apply makeMessageBody_reply in Hb.
    destruct (ReceiveHandler_cases s message m)
      as [(e' & calls & _ & _ & Hrun)
         | (message' & sender & target & msg & -> & Hvalid)].
    - rewrite Hrun in Hb. discriminate.
    - rewrite (ReceiveHandler_valid s m Hvalid) in Hb.
      destruct (receive s sender target msg
                  (after m (table m) (resolving message'))) as [r m1] eqn:Hrec.
      simpl in Hb. apply hand_back_reply in Hb.
      apply (@receive_reply s sender target msg
               (after m (table m) (resolving message')) b).
      now rewrite Hrec. }
  split; [exact Htag|].
  intros from to. unfold corrupt. simpl. rewrite Htag, Z.eqb_refl. reflexivity.
Qed.

End Outcomes.

(** ** Facts about the sort and the order of nearness *)

Section SortFacts.

Variable A : Type.
Variable leb : A -> A -> bool.

Hypothesis leb_total : forall a b, leb a b = true \/ leb b a = true.
Hypothesis leb_trans :
  forall a b c, leb a b = true -> leb b c = true -> leb a c = true.

Local Notation "'R'" := (kademlia.precedes leb).

Lemma insert_perm (x : A) (l : list A) :
  Permutation (kademlia.insert leb x l) (x :: l).
Proof.
  induction l as [|y l IH]; simpl.
  - apply Permutation_refl.
  - destruct (leb x y).
    + apply Permutation_refl.
    + apply perm_trans with (y :: x :: l).
      * now apply perm_skip.
      * apply perm_swap.
Qed.

Lemma sort_perm (l : list A) : Permutation (kademlia.sort leb l) l.
Proof.
  induction l as [|x l IH]; simpl.
  - apply perm_nil.
  - apply perm_trans with (x :: kademlia.sort leb l).
    + apply insert_perm.
    + now apply perm_skip.
Qed.

Lemma Forall_insert (P : A -> Prop) (x : A) (l : list A) :
  P x -> Forall P l -> Forall P (kademlia.insert leb x l).
Proof.
  intros Hx Hl.
  apply (Permutation_Forall (Permutation_sym (insert_perm x l))).
  now constructor.
Qed.

Lemma insert_sorted (x : A) (l : list A) :
  StronglySorted R l -> StronglySorted R (kademlia.insert leb x l).
Proof.
  induction 1 as [|y l Hl IH Hy]; simpl.
  - repeat constructor.
  - destruct (leb x y) eqn:Hxy.
    + constructor.
      * now constructor.
      * constructor; [exact Hxy|].
        eapply Forall_impl; [|exact Hy].
        intros z Hz. unfold kademlia.precedes in *. now apply leb_trans with y.
    + constructor; [exact IH|].
      apply Forall_insert; [|exact Hy].
      unfold kademlia.precedes.
      destruct (leb_total x y) as [Hc|Hc]; [congruence|exact Hc].
Qed.

Lemma sort_sorted (l : list A) : StronglySorted R (kademlia.sort leb l).
Proof.
  induction l as [|x l IH]; simpl.
  - constructor.
  - now apply insert_sorted.
Qed.

Lemma In_firstn (n : nat) (l : list A) (x : A) :
  In x (firstn n l) -> In x l.
Proof.
  revert n. induction l as [|y l IH]; intros [|n]; simpl; try contradiction.
  intros [Hx|Hx]; [now left | right; now apply (IH n)].
Qed.

Lemma StronglySorted_firstn (n : nat) (l : list A) :
  StronglySorted R l -> StronglySorted R (firstn n l).
Proof.
  intros Hl. revert n. induction Hl as [|y l Hl IH Hy]; intros [|n]; simpl;
    try constructor.
  - apply IH.
  - rewrite Forall_forall in *. intros z Hz. apply Hy.
    now apply (In_firstn n l).
Qed.

Lemma StronglySorted_across (l1 l2 : list A) :
  StronglySorted R (l1 ++ l2) ->
  forall a b, In a l1 -> In b l2 -> R a b.
Proof.
  induction l1 as [|x l1 IH]; simpl; intros Hs a b Ha Hb; [contradiction|].
  apply StronglySorted_inv in Hs. destruct Hs as [Hs Hx].
  destruct Ha as [<-|Ha].
  - rewrite Forall_forall in Hx. apply Hx. apply in_or_app. now right.
  - now apply IH.
Qed.

End SortFacts.

Section Nearness.

Import kademlia.

Lemma bytes_leb_total (a b : list byte) :
  bytes_leb a b = true \/ bytes_leb b a = true.
Proof.
  revert b. induction a as [|x a IH]; intros [|y b]; simpl; auto.
  destruct (N.ltb_spec (Byte.to_N x) (Byte.to_N y)) as [Hlt|Hge]; simpl; auto.
  destruct (N.ltb_spec (Byte.to_N y) (Byte.to_N x)) as [Hlt'|Hge']; simpl; auto.
  assert (Heq : Byte.to_N x = Byte.to_N y) by lia.
  rewrite Heq, N.eqb_refl. simpl. apply IH.
Qed.

Lemma bytes_leb_trans (a b c : list byte) :
  bytes_leb a b = true -> bytes_leb b c = true -> bytes_leb a c = true.
Proof.
  revert b c. induction a as [|x a IH]; intros [|y b] [|z c]; simpl; auto;
    try discriminate.
  intros Hab Hbc.
  apply orb_true_iff in Hab. apply orb_true_iff in Hbc. apply orb_true_iff.
  rewrite andb_true_iff in *. rewrite !N.ltb_lt in *. rewrite !N.eqb_eq in *.
  destruct Hab as [Hab|[Hab Hab']], Hbc as [Hbc|[Hbc Hbc']].
  - left. lia.
  - left. lia.
  - left. lia.
  - right. split; [lia|]. now apply IH with b.
Qed.

Lemma closer_spec (target p q : peer.ID) :
  closer target p q = true <-> no_farther target p q.
Proof.
  unfold closer, no_farther.
  rewrite orb_true_iff, andb_true_iff, Z.ltb_lt, Z.eqb_eq. reflexivity.
Qed.

Lemma closer_total (target p q : peer.ID) :
  closer target p q = true \/ closer target q p = true.
Proof.
  rewrite !closer_spec. unfold no_farther.
  destruct (Z.lt_total (distance p target) (distance q target))
    as [Hlt|[Heq|Hgt]]; auto.
  destruct (bytes_leb_total (peer.Id p) (peer.Id q)) as [Hb|Hb]; auto.
Qed.

Lemma closer_trans (target p q r : peer.ID) :
  closer target p q = true -> closer target q r = true ->
  closer target p r = true.
Proof.
  rewrite !closer_spec. unfold no_farther.
  intros [Hpq|[Hpq Bpq]] [Hqr|[Hqr Bqr]].
  - left. lia.
  - left. lia.
  - left. lia.
  - right. split; [lia|]. now apply bytes_leb_trans with (peer.Id q).
Qed.

(** The answer of the nearest-peers query: its length, its order, and that
    no known peer left out is nearer than one taken. *)
Lemma FindClosestPeers_nearest (t : Table) (target : peer.ID) (count : Z) :
  0 <= count ->
  let closest := FindClosestPeers t target count in
  Z.of_nat (List.length closest) =
  Z.min count (Z.of_nat (List.length (peers t))) /\
  StronglySorted (no_farther target) closest /\
  incl closest (peers t) /\
  forall p q, In p closest -> In q (peers t) -> ~ In q closest ->
              no_farther target p q.
Proof.
  intros Hc closest. subst closest. unfold FindClosestPeers.
  set (sorted := sort (closer target) (peers t)).
  assert (Hperm : Permutation sorted (peers t)) by apply sort_perm.
  assert (Hsorted : StronglySorted (precedes (closer target)) sorted).
  { apply sort_sorted.
    - apply closer_total.
    - intros a b c. apply closer_trans. }
  repeat split.
  - rewrite length_firstn, (Permutation_length Hperm). lia.
  - apply StronglySorted_firstn with (n := Z.to_nat count) in Hsorted.
    revert Hsorted. generalize (firstn (Z.to_nat count) sorted).
    induction 1 as [|y l Hl IH Hy]; constructor; [exact IH|].
    eapply Forall_impl; [|exact Hy]. intros z. apply closer_spec.
  - intros p Hp. apply (Permutation_in _ Hperm).
    now apply (In_firstn (Z.to_nat count) sorted).
  - intros p q Hp Hq Hout. apply closer_spec.
    rewrite <- (firstn_skipn (Z.to_nat count) sorted) in Hsorted.
    apply (@StronglySorted_across _ (closer target) _ _ Hsorted); [exact Hp|].
    apply (Permutation_in _ (Permutation_sym Hperm)) in Hq.
    rewrite <- (firstn_skipn (Z.to_nat count) sorted) in Hq.
    apply in_app_or in Hq. destruct Hq as [Hq|Hq]; [contradiction|exact Hq].
Qed.

End Nearness.

(** ** Facts about the table *)

Section TableFacts.

Import kademlia.

Lemma Equals_true (p q : peer.ID) :
  Equals p q = true <-> peer.Id p = peer.Id q.
Proof.
  unfold Equals. destruct (list_eq_dec byte_eq_dec (peer.Id p) (peer.Id q));
    split; congruence.
Qed.

Lemma Equals_refl (p : peer.ID) : Equals p p = true.
Proof. now apply Equals_true. Qed.

Lemma member_exists (p : peer.ID) (l : list peer.ID) :
  In p l -> existsb (Equals p) l = true.
Proof.
  intros Hp. apply existsb_exists. exists p. split; [exact Hp|apply Equals_refl].
Qed.

Lemma LookupRemoteAddress_member (t : Table) (address : string) (p : peer.ID) :
  LookupRemoteAddress t address = Some p ->
  In p (peers t) /\ peer.Address p = address.
Proof.
  unfold LookupRemoteAddress. intros Hf. apply find_some in Hf.
  destruct Hf as [Hin Ha]. split; [exact Hin|now apply String.eqb_eq].
Qed.

Lemma exists_others (p q : peer.ID) (l : list peer.ID) :
  Equals q p = false ->
  existsb (Equals q) (others p l) = existsb (Equals q) l.
Proof.
  intros Hqp. induction l as [|x l IH]; simpl; [reflexivity|].
  destruct (Equals x p) eqn:Hxp; simpl.
  - rewrite IH. destruct (Equals q x) eqn:Hqx; [|reflexivity].
    apply Equals_true in Hxp, Hqx.
    assert (Equals q p = true) by (apply Equals_true; congruence).
    congruence.
  - now rewrite IH.
Qed.

Lemma Equals_sym (p q : peer.ID) : Equals p q = Equals q p.
Proof.
  destruct (Equals p q) eqn:Hpq, (Equals q p) eqn:Hqp; try reflexivity.
  - apply Equals_true in Hpq. symmetry in Hpq. apply Equals_true in Hpq.
    congruence.
  - apply Equals_true in Hqp. symmetry in Hqp. apply Equals_true in Hqp.
    congruence.
Qed.

Lemma self_place (t : Table) (p : peer.ID) : self (place t p) = self t.
Proof. unfold place. now destruct (Equals p (self t)). Qed.

Lemma PeerExists_place_adds (t : Table) (p : peer.ID) :
  Equals p (self t) = false -> PeerExists (place t p) p = true.
Proof.
  intros Hs. unfold place, PeerExists. rewrite Hs. simpl.
  now rewrite Equals_refl.
Qed.

Lemma PeerExists_place_keeps (t : Table) (p q : peer.ID) :
  PeerExists t q = true -> PeerExists (place t p) q = true.
Proof.
  unfold place, PeerExists. intros Hq.
  destruct (Equals p (self t)); [exact Hq|]. simpl.
  destruct (Equals q p) eqn:Hqp; [reflexivity|]. simpl.
  now rewrite exists_others.
Qed.

Lemma self_merge (ps : list peer.ID) (t : Table) :
  self (fold_left place ps t) = self t.
Proof.
  revert t. induction ps as [|p ps IH]; intros t; simpl; [reflexivity|].
  now rewrite IH, self_place.
Qed.

Lemma PeerExists_merge_keeps (ps : list peer.ID) (t : Table) (q : peer.ID) :
  PeerExists t q = true -> PeerExists (fold_left place ps t) q = true.
Proof.
  revert t. induction ps as [|p ps IH]; intros t Hq; simpl; [exact Hq|].
  apply IH. now apply PeerExists_place_keeps.
Qed.

Lemma PeerExists_merge_adds (ps : list peer.ID) (t : Table) (p : peer.ID) :
  In p ps -> Equals p (self t) = false ->
  PeerExists (fold_left place ps t) p = true.
Proof.
  revert t. induction ps as [|x ps IH]; intros t Hin Hs; simpl;
    [contradiction|].
  destruct Hin as [->|Hin].
  - apply PeerExists_merge_keeps. now apply PeerExists_place_adds.
  - apply IH; [exact Hin|]. now rewrite self_place.
Qed.

(** Where there is room, the upsert does not consult the policy. *)
Lemma Update_room (K : Z) (victim : eviction) (t : Table) (p : peer.ID) :
  has_room K t p = true -> Update K victim t p = place t p.
Proof.
  unfold has_room, Update, place.
  destruct (Equals p (self t)); [reflexivity|].
  destruct (PeerExists t p); [reflexivity|]. simpl.
  now intros ->.
Qed.

Lemma merge_room (K : Z) (victim : eviction) (ps : list peer.ID) (t : Table) :
  roomy K t ps = true ->
  fold_left (Update K victim) ps t = fold_left place ps t.
Proof.
  revert t. induction ps as [|p ps IH]; intros t; simpl; [reflexivity|].
  intros Hr. apply andb_true_iff in Hr. destruct Hr as [Hp Hr].
  rewrite (Update_room K victim t p Hp). now apply IH.
Qed.

(** A known peer is refreshed whatever the capacity. *)
Lemma Update_known (K : Z) (victim : eviction) (t : Table) (p : peer.ID) :
  In p (peers t) -> Update K victim t p = place t p.
Proof.
  intros Hin. apply Update_room. unfold has_room, PeerExists.
  rewrite (member_exists p (peers t) Hin). now rewrite orb_true_r.
Qed.

Lemma PeerExists_RemovePeer (t : Table) (p : peer.ID) :
  PeerExists (RemovePeer t p) p = false.
Proof.
  unfold PeerExists, RemovePeer. simpl.
  induction (peers t) as [|x l IH]; simpl; [reflexivity|].
  destruct (Equals x p) eqn:Hxp; simpl; [exact IH|].
  rewrite IH, orb_false_r.
  destruct (Equals p x) eqn:Hpx; [|reflexivity].
  apply Equals_true in Hpx.
  assert (Equals x p = true) by (apply Equals_true; congruence).
  congruence.
Qed.

Lemma others_absent (p : peer.ID) (l : list peer.ID) :
  ~ In (peer.Id p) (map peer.Id l) -> others p l = l.
Proof.
  induction l as [|x l IH]; simpl; intros Hn; [reflexivity|].
  destruct (Equals x p) eqn:Hxp.
  - apply Equals_true in Hxp. exfalso. apply Hn. now left.
  - simpl. f_equal. apply IH. intros Hin. apply Hn. now right.
Qed.

Lemma others_present_length (p : peer.ID) (l : list peer.ID) :
  NoDup (map peer.Id l) -> In p l ->
  S (List.length (others p l)) = List.length l.
Proof.
  induction l as [|x l IH]; simpl; intros Hnd Hin; [contradiction|].
  inversion Hnd as [|? ? Hx Hl]; subst.
  destruct (Equals x p) eqn:Hxp.
  - simpl. apply Equals_true in Hxp. rewrite others_absent; [reflexivity|].
    now rewrite <- Hxp.
  - simpl. f_equal. apply IH; [exact Hl|].
    destruct Hin as [->|Hin]; [|exact Hin].
    now rewrite Equals_refl in Hxp.
Qed.

(** Refreshing a peer the table holds keeps the number of peers. *)
Lemma place_known_length (t : Table) (p : peer.ID) :
  NoDup (map peer.Id (peers t)) -> In p (peers t) ->
  List.length (peers (place t p)) = List.length (peers t).
Proof.
  intros Hnd Hin. unfold place.
  destruct (Equals p (self t)); [reflexivity|]. simpl.
  now apply others_present_length.
Qed.

Lemma others_ids (p : peer.ID) (l : list peer.ID) :
  NoDup (map peer.Id l) ->
  NoDup (map peer.Id (others p l)) /\ ~ In (peer.Id p) (map peer.Id (others p l)).
Proof.
  induction l as [|x l IH]; simpl; intros Hnd.
  - split; [constructor|tauto].
  - inversion Hnd as [|? ? Hx Hl]; subst. destruct (IH Hl) as [IH1 IH2].
    destruct (Equals x p) eqn:Hxp; simpl; [now split|].
    split.
    + constructor; [|exact IH1]. intros Hin. apply Hx.
      apply in_map_iff in Hin. destruct Hin as (y & Hy & Hin).
      apply filter_In in Hin. apply in_map_iff. exists y. tauto.
    + intros [Heq|Hin]; [|now apply IH2].
      assert (Equals x p = true) by now apply Equals_true. congruence.
Qed.

Lemma exists_false_others (p q : peer.ID) (l : list peer.ID) :
  existsb (Equals q) l = false -> existsb (Equals q) (others p l) = false.
Proof.
  induction l as [|x l IH]; simpl; [auto|].
  intros Hq. apply orb_false_iff in Hq. destruct Hq as [Hqx Hq].
  destruct (Equals x p); simpl; [now apply IH|].
  now rewrite Hqx, IH.
Qed.

Lemma well_formed_RemovePeer (t : Table) (p : peer.ID) :
  well_formed t -> well_formed (RemovePeer t p).
Proof.
  unfold well_formed, PeerExists. intros [Hs Hnd]. simpl. split.
  - now apply exists_false_others.
  - now destruct (others_ids p (peers t) Hnd).
Qed.

Lemma well_formed_put (t : Table) (p : peer.ID) :
  Equals p (self t) = false -> well_formed t -> well_formed (put t p).
Proof.
  unfold well_formed, PeerExists. intros Hp [Hs Hnd]. simpl.
  destruct (others_ids p (peers t) Hnd) as [N1 N2]. split.
  - rewrite Equals_sym, Hp. simpl. now apply exists_false_others.
  - now constructor.
Qed.

(** The invariant holds at creation and is kept by upsert and removal. *)
Lemma well_formed_preserved (K : Z) (victim : eviction) (t : Table)
  (p : peer.ID) :
  well_formed (CreateRoutingTable p) /\
  (well_formed t -> well_formed (Update K victim t p)) /\
  (well_formed t -> well_formed (RemovePeer t p)).
Proof.
  split; [|split].
  - split; [reflexivity|constructor].
  - intros Hwf. unfold Update.
    destruct (Equals p (self t)) eqn:Hp; [exact Hwf|].
    destruct (PeerExists t p); [now apply well_formed_put|].
    destruct (Z.of_nat (List.length (mates t p)) <? K);
      [now apply well_formed_put|].
    destruct (victim (mates t p) p) as [old|]; [|exact Hwf].
    destruct (existsb (Equals old) (mates t p)); [|exact Hwf].
    apply well_formed_put; [exact Hp|]. now apply well_formed_RemovePeer.
  - apply well_formed_RemovePeer.
Qed.

Lemma filter_others_length (f : peer.ID -> bool) (p : peer.ID)
  (l : list peer.ID) :
  (List.length (filter f (others p l)) <= List.length (filter f l))%nat.
Proof.
  induction l as [|x l IH]; simpl; [lia|].
  destruct (Equals x p); simpl; destruct (f x); simpl; lia.
Qed.

Lemma filter_others_drops (f : peer.ID -> bool) (p : peer.ID)
  (l : list peer.ID) :
  existsb (Equals p) (filter f l) = true ->
  (S (List.length (filter f (others p l))) <= List.length (filter f l))%nat.
Proof.
  induction l as [|x l IH]; simpl; [discriminate|].
  pose proof (filter_others_length f p l) as Hle.
  destruct (Equals x p) eqn:Hxp; simpl.
  - destruct (f x); simpl; [lia|]. intros Hex. specialize (IH Hex). lia.
  - destruct (f x); simpl.
    + rewrite Equals_sym, Hxp. simpl. intros Hex. specialize (IH Hex). lia.
    + intros Hex. specialize (IH Hex). lia.
Qed.

Lemma bucket_Equals (local p q : peer.ID) :
  Equals p q = true -> bucket local p = bucket local q.
Proof.
  intros Hpq. apply Equals_true in Hpq. unfold bucket, distance.
  now rewrite Hpq.
Qed.

Lemma known_among_mates (t : Table) (p : peer.ID) :
  PeerExists t p = true -> existsb (Equals p) (mates t p) = true.
Proof.
  unfold PeerExists, mates, crowd. intros Hex.
  apply existsb_exists in Hex. destruct Hex as (q & Hin & Hpq).
  apply existsb_exists. exists q. split; [|exact Hpq].
  apply filter_In. split; [exact Hin|].
  apply Z.eqb_eq. symmetry. now apply bucket_Equals.
Qed.

(** Putting a peer in adds at most one entry, to its own bucket, and none
    when an entry of its identity was there. *)
Lemma crowd_put (t : Table) (p : peer.ID) (i : Z) :
  (List.length (crowd (put t p) i) <=
   List.length (crowd t i) +
   (if (bucket (self t) p =? i)%Z then 1 else 0))%nat /\
  (PeerExists t p = true ->
   (List.length (crowd (put t p) i) <= List.length (crowd t i))%nat).
Proof.
  unfold crowd, put. simpl.
  pose proof (filter_others_length
                (fun q => bucket (self t) q =? i) p (peers t)) as Hle.
  destruct (bucket (self t) p =? i) eqn:Hb; simpl; split; try lia.
  intros Hex. apply known_among_mates in Hex. unfold mates, crowd in Hex.
  apply Z.eqb_eq in Hb. rewrite Hb in Hex.
  apply filter_others_drops in Hex. lia.
Qed.

Lemma crowd_RemovePeer (t : Table) (old : peer.ID) (i : Z) :
  (List.length (crowd (RemovePeer t old) i) <= List.length (crowd t i))%nat /\
  (existsb (Equals old) (crowd t i) = true ->
   (S (List.length (crowd (RemovePeer t old) i)) <=
    List.length (crowd t i))%nat).
Proof.
  unfold crowd, RemovePeer. simpl. split.
  - apply filter_others_length.
  - apply filter_others_drops.
Qed.

(** No upsert fills a bucket beyond the bucket size, whatever the policy;
    nor does a removal. *)
Lemma within_capacity_preserved (K : Z) (victim : eviction) (t : Table)
  (p : peer.ID) :
  (0 <= K -> within_capacity K (CreateRoutingTable p)) /\
  (within_capacity K t -> within_capacity K (Update K victim t p)) /\
  (within_capacity K t -> within_capacity K (RemovePeer t p)).
Proof.
  unfold within_capacity. split; [|split].
  - intros HK i. simpl. lia.
  - intros Hcap i. specialize (Hcap i). unfold Update.
    destruct (Equals p (self t)); [exact Hcap|].
    destruct (PeerExists t p) eqn:Hex.
    { destruct (crowd_put t p i) as [_ Hle]. specialize (Hle Hex). lia. }
    destruct (Z.of_nat (List.length (mates t p)) <? K) eqn:Hroom.
    { apply Z.ltb_lt in Hroom. destruct (crowd_put t p i) as [Hle _].
      unfold mates in Hroom.
      destruct (bucket (self t) p =? i) eqn:Hb; [|lia].
      apply Z.eqb_eq in Hb. rewrite Hb in Hroom. lia. }
    destruct (victim (mates t p) p) as [old|]; [|exact Hcap].
    destruct (existsb (Equals old) (mates t p)) eqn:Hold; [|exact Hcap].
    destruct (crowd_put (RemovePeer t old) p i) as [Hle _].
    destruct (crowd_RemovePeer t old i) as [Hrm Hdrop].
    simpl self in Hle.
    destruct (bucket (self t) p =? i) eqn:Hb; [|lia].
    apply Z.eqb_eq in Hb. unfold mates in Hold. rewrite Hb in Hold.
    specialize (Hdrop Hold). lia.
  - intros Hcap i. specialize (Hcap i).
    destruct (crowd_RemovePeer t p i) as [Hrm _]. lia.
Qed.

End TableFacts.

Lemma lookups_app (tr calls : list event) :
  lookups (tr ++ calls) = lookups tr ++ lookups calls.
Proof. apply filter_app. Qed.

Lemma lookups_updates (ps : list peer.ID) : lookups (map CallUpdate ps) = [].
Proof. induction ps as [|p ps IH]; simpl; [reflexivity|exact IH]. Qed.

Lemma mutations_updates (ps : list peer.ID) :
  mutations (map CallUpdate ps) = map CallUpdate ps.
Proof. induction ps as [|p ps IH]; simpl; [reflexivity|now rewrite IH]. Qed.

(** ** The service over the table *)

Section OverTheTable.

Variable K : Z.
Variable victim : kademlia.eviction.

Context (E : @Engine (kademlia.ops K victim)) (W : Wire).

Hypothesis opcodes_distinct :
  NoDup [opCodePing; opCodePong; opCodeLookupRequest; opCodeLookupResponse].

(** C1: a valid LookupRequest with the category enabled is answered with
    the LookupResponse body whose peer sequence is, address for address and
    identity for identity, the peers the table holds nearest to the
    resolved recipient: min(K, N) of them for N known peers, in order of
    non-decreasing XOR distance to the recipient with equal distances in
    identity-byte order, and no known peer left out is nearer than one
    returned.  When the response encodes, the result is that body and no
    error. *)
Theorem lookup_request_replies_with_nearest_peers
  (s : @Service (kademlia.ops K victim) E)
  (m : @machine (kademlia.ops K victim))
  (message : protocol.Message) (sender target : peer.ID)
  (msg : protobuf.Message) :
  valid (table m) message sender target msg ->
  protobuf.Opcode msg = opCodeLookupRequest ->
  DisableLookup s = false ->
  kademlia.well_formed (table m) ->
  0 <= K ->
  let known := kademlia.Update K victim (table m) sender in
  let closest := kademlia.FindClosestPeers known target K in
  exists Peers : list protobuf.ID,
    ReceiveHandler s (Some message) m =
    (makeMessageBody opCodeLookupResponse (protobuf.LookupNodeResponse Peers),
     after m known
       (resolving message ++
        [CallUpdate sender; CallFindClosestPeers target K])) /\
    map protobuf.Address Peers = map peer.Address closest /\
    map protobuf.Id Peers = map peer.Id closest /\
    Z.of_nat (List.length Peers) =
    Z.min K (Z.of_nat (List.length (kademlia.peers (table m)))) /\
    StronglySorted (kademlia.no_farther target) closest /\
    incl closest (kademlia.peers known) /\
    (forall p q, In p closest -> In q (kademlia.peers known) ->
                 ~ In q closest -> kademlia.no_farther target p q) /\
    (forall response payload,
        toProtobufMessage opCodeLookupResponse
          (protobuf.LookupNodeResponse Peers) = Ok response ->
        Marshal response = Ok payload ->
        fst (ReceiveHandler s (Some message) m) =
        (Some {| protocol.Service := DiscoveryServiceID;
                 protocol.Payload := payload |}, None)).
Proof.
  intros Hv Hop Hen [_ Hnd] HK known closest.
  exists (map protobuf.of_peer closest).
  assert (Hrun : ReceiveHandler s (Some message) m =
    (makeMessageBody opCodeLookupResponse
       (protobuf.LookupNodeResponse (map protobuf.of_peer closest)),
     after m known
       (resolving message ++
        [CallUpdate sender; CallFindClosestPeers target K])))
    by exact (lookup_request_reply opcodes_distinct s m Hv Hop Hen).
  destruct (FindClosestPeers_nearest known target HK)
    as (Hlen & Hsort & Hin & Hnear).
  assert (Hmember : In sender (kademlia.peers (table m))).
  { destruct Hv as (body & _ & _ & _ & Hs & _).
    now apply LookupRemoteAddress_member in Hs. }
  split; [exact Hrun|].
  split; [rewrite map_map; reflexivity|].
  split; [rewrite map_map; reflexivity|].
  split.
  { rewrite length_map. fold closest in Hlen. rewrite Hlen. unfold known.
    rewrite (Update_known K victim _ _ Hmember).
    now rewrite place_known_length. }
  repeat split; try assumption.
  intros response payload Hr Hp. rewrite Hrun. simpl.
  unfold makeMessageBody. now rewrite Hr, Hp.
Qed.

(** C8, as the code has it: a valid Pong with the category enabled, its
    sender resolved by the table to [sender], which the table therefore
    already holds.  The sender is upserted and exists in the table then;
    the lookup engine is called once, with [sender] as target; every peer
    the lookup returned is upserted in turn; there is no reply and no
    error.  When no upsert of the merge meets a full bucket, [sender]
    exists in the table afterwards and so does every peer the lookup
    returned, the local identity apart. *)
Theorem pong_from_resolved_sender_bootstraps
  (s : @Service (kademlia.ops K victim) E)
  (m : @machine (kademlia.ops K victim))
  (message : protocol.Message) (sender target : peer.ID)
  (msg : protobuf.Message) :
  valid (table m) message sender target msg ->
  protobuf.Opcode msg = opCodePong ->
  DisablePong s = false ->
  let m' := snd (ReceiveHandler s (Some message) m) in
  let routes := kademlia.Update K victim (table m) sender in
  let found :=
    @FindNode (kademlia.ops K victim) E routes (sendHandler s) sender K 8 in
  kademlia.PeerExists (table m) sender = true /\
  kademlia.PeerExists routes sender = true /\
  table m' = fold_left (kademlia.Update K victim) found routes /\
  mutations (trace m') =
  mutations (trace m) ++ CallUpdate sender :: map CallUpdate found /\
  lookups (trace m') = lookups (trace m) ++ [CallFindNode sender K 8] /\
  fst (ReceiveHandler s (Some message) m) = (None, None) /\
  (kademlia.roomy K routes found = true ->
   kademlia.PeerExists (table m') sender = true /\
   forall p, In p found ->
             kademlia.Equals p (kademlia.self (table m)) = false ->
             kademlia.PeerExists (table m') p = true).
Proof.
  intros Hv Hop Hen m' routes found. subst m'.
  rewrite (ReceiveHandler_valid s m Hv).
  rewrite (receive_pong opcodes_distinct s sender target msg _ Hop Hen).
  cbv zeta. simpl hand_back. rewrite after_after.
  change (@BucketSize (kademlia.ops K victim)) with K.
  change (@Update (kademlia.ops K victim)) with (kademlia.Update K victim).
  unfold after; cbn [fst snd table trace]. fold routes. fold found.
  assert (Hmember : In sender (kademlia.peers (table m))).
  { destruct Hv as (body & _ & _ & _ & Hs & _).
    now apply LookupRemoteAddress_member in Hs. }
  assert (Hknown : kademlia.PeerExists (table m) sender = true)
    by now apply member_exists.
  assert (Hroutes : routes = kademlia.place (table m) sender)
    by apply (Update_known K victim _ _ Hmember).
  assert (Hfresh : kademlia.PeerExists routes sender = true).
  { rewrite Hroutes. now apply PeerExists_place_keeps. }
  assert (Hres : mutations (resolving message) = []) by reflexivity.
  assert (Hres' : lookups (resolving message) = []) by reflexivity.
  split; [exact Hknown|]. split; [exact Hfresh|]. split; [reflexivity|].
  split.
  { rewrite !mutations_app, Hres, mutations_updates. f_equal.
    simpl. now rewrite app_nil_r. }
  split.
  { rewrite !lookups_app, Hres', lookups_updates, app_nil_r. reflexivity. }
  split; [reflexivity|].
  intros Hroom. split.
  - change (kademlia.PeerExists
              (fold_left (kademlia.Update K victim) found routes) sender
            = true).
    rewrite (merge_room K victim found routes Hroom).
    now apply PeerExists_merge_keeps.
  - intros p Hp Hself.
    change (kademlia.PeerExists
              (fold_left (kademlia.Update K victim) found routes) p
            = true).
    rewrite (merge_room K victim found routes Hroom).
    apply PeerExists_merge_adds; [exact Hp|].
    now rewrite Hroutes, self_place.
Qed.

(** C7: the disconnect notification.  Whatever the peer, it is not in the
    table afterwards.  When it was a member, the table is the old one with
    the peer removed; when it was not, the table is the old one and nothing
    but the existence check was called.  The method has no error result. *)
Theorem disconnect_removes_known_peer
  (s : @Service (kademlia.ops K victim) E)
  (target : peer.ID) (m : @machine (kademlia.ops K victim)) :
  let m' := snd (PeerDisconnect s target m) in
  kademlia.PeerExists (table m') target = false /\
  (if kademlia.PeerExists (table m) target
   then table m' = kademlia.RemovePeer (table m) target /\
        mutations (trace m') = mutations (trace m) ++ [CallRemovePeer target]
   else table m' = table m /\
        trace m' = trace m ++ [CallPeerExists target]).
Proof.
  unfold PeerDisconnect, bind, Routes_PeerExists, Routes_RemovePeer,
    Routes_Self, emit, read, write, ret. simpl.
  change (@PeerExists (kademlia.ops K victim)) with kademlia.PeerExists.
  destruct (kademlia.PeerExists (table m) target) eqn:Hex; simpl.
  - split; [apply PeerExists_RemovePeer|]. split; [reflexivity|].
    rewrite !mutations_app. simpl. now rewrite !app_nil_r.
  - now rewrite Hex.
Qed.

End OverTheTable.

(** ** The service run on the small network *)

Section Runs.

Import example.

Local Notation "'handle'" :=
  (@ReceiveHandler (kademlia.ops 2 keep_old) (engine 2) wire).
Local Notation "'passes'" := (@valid (kademlia.ops 2 keep_old) wire).

Local Ltac by_evaluation :=
  eexists; repeat split; try reflexivity; discriminate.

Lemma example_opcodes_distinct :
  NoDup [@opCodePing wire; @opCodePong wire; @opCodeLookupRequest wire;
         @opCodeLookupResponse wire].
Proof.
  repeat constructor; simpl; intuition discriminate.
Qed.

(** A LookupRequest from [bob] addressed to [alice]: the two peers nearest
    to [alice] are returned, [alice] first, with their addresses and
    identities. *)
Lemma lookup_request_replies_with_nearest_peers_witness :
  passes (table booted) (envelope bob alice x03) bob alice (decoded 3) /\
  kademlia.well_formed (table booted) /\
  exists Peers,
    fst (handle node (Some (envelope bob alice x03)) booted) =
    @makeMessageBody wire 4 (protobuf.LookupNodeResponse Peers) /\
    map protobuf.Address Peers = ["10.0.0.2:3000"; "10.0.0.3:3000"] /\
    map protobuf.Id Peers = [[x11]; [x12]].
Proof.
  assert (Hv : passes (table booted) (envelope bob alice x03) bob alice
                 (decoded 3)) by by_evaluation.
  assert (Hwf : kademlia.well_formed (table booted)).
  { split; [reflexivity|]. repeat constructor; simpl; intuition discriminate. }
  split; [exact Hv|]. split; [exact Hwf|].
  destruct (@lookup_request_replies_with_nearest_peers 2 keep_old (engine 2)
              wire example_opcodes_distinct node booted _ _ _ _ Hv
              eq_refl eq_refl Hwf)
    as (Peers & Hrun & Haddr & Hid & _); [discriminate|].
  exists Peers. split; [now rewrite Hrun|]. split; [exact Haddr|exact Hid].
Defined.

(** A message with opcode 9 from [bob]. *)
Lemma unknown_opcode_is_an_error_witness :
  passes (table booted) (envelope bob alice x09) bob alice (decoded 9) /\
  fst (handle node (Some (envelope bob alice x09)) booted) =
  (None, Some (errors.Errorf "Unknown message opcode type: %d" 9)).
Proof.
  assert (Hv : passes (table booted) (envelope bob alice x09) bob alice
                 (decoded 9)) by by_evaluation.
  split; [exact Hv|].
  rewrite (@unknown_opcode_is_an_error (kademlia.ops 2 keep_old) (engine 2) wire
             node booted _ _ _ _ Hv).
  - reflexivity.
  - simpl. intuition discriminate.
Defined.

(** A LookupResponse from [bob]. *)
Lemma lookup_response_is_unknown_opcode_witness :
  passes (table booted) (envelope bob alice x04) bob alice (decoded 4) /\
  fst (handle node (Some (envelope bob alice x04)) booted) =
  (None, Some (errors.Errorf "Unknown message opcode type: %d" 4)).
Proof.
  assert (Hv : passes (table booted) (envelope bob alice x04) bob alice
                 (decoded 4)) by by_evaluation.
  split; [exact Hv|].
  rewrite (@lookup_response_is_unknown_opcode (kademlia.ops 2 keep_old) (engine 2) wire
             example_opcodes_distinct node booted _ _ _ _ Hv eq_refl).
  reflexivity.
Defined.

(** A Ping from [bob]: one Pong body, whose payload is the Pong opcode
    alone. *)
Lemma ping_is_answered_with_pong_witness :
  passes (table booted) (envelope bob alice x01) bob alice (decoded 1) /\
  fst (handle node (Some (envelope bob alice x01)) booted) =
  (Some {| protocol.Service := 5; protocol.Payload := [x02] |}, None).
Proof.
  assert (Hv : passes (table booted) (envelope bob alice x01) bob alice
                 (decoded 1)) by by_evaluation.
  split; [exact Hv|].
  destruct (@ping_is_answered_with_pong (kademlia.ops 2 keep_old) (engine 2) wire
              node booted _ _ _ _ Hv eq_refl eq_refl) as [_ Hreply].
  apply (Hreply (decoded 2) [x02]); reflexivity.
Defined.

(** A Ping from [bob] to the node with probes switched off. *)
Lemma disabled_category_only_refreshes_sender_witness :
  passes (table booted) (envelope bob alice x01) bob alice (decoded 1) /\
  handle quiet (Some (envelope bob alice x01)) booted =
  ((None, None),
   after booted (kademlia.Update 2 keep_old (table booted) bob)
     [CallLookupRemoteAddress "10.0.0.3:3000";
      CallLookupRemoteAddress "10.0.0.2:3000"; CallUpdate bob]).
Proof.
  assert (Hv : passes (table booted) (envelope bob alice x01) bob alice
                 (decoded 1)) by by_evaluation.
  split; [exact Hv|].
  apply (@disabled_category_only_refreshes_sender (kademlia.ops 2 keep_old) (engine 2)
           wire example_opcodes_distinct quiet booted _ _ _ _ Hv).
  left. split; reflexivity.
Defined.

(** A Pong from [bob]: the lookup for [bob] comes back with [carol] and
    [home]; both are handed to the table. *)
Lemma pong_runs_lookup_and_merges_witness :
  passes (table booted) (envelope bob alice x02) bob alice (decoded 2) /\
  fst (handle node (Some (envelope bob alice x02)) booted) = (None, None) /\
  mutations (trace (snd (handle node (Some (envelope bob alice x02)) booted)))
  = [CallUpdate bob; CallUpdate carol; CallUpdate home] /\
  lookups (trace (snd (handle node (Some (envelope bob alice x02)) booted)))
  = [CallFindNode bob 2 8].
Proof.
  assert (Hv : passes (table booted) (envelope bob alice x02) bob alice
                 (decoded 2)) by by_evaluation.
  split; [exact Hv|].
  rewrite (@pong_runs_lookup_and_merges (kademlia.ops 2 keep_old) (engine 2) wire
             example_opcodes_distinct node booted _ _ _ _ Hv eq_refl eq_refl).
  repeat split.
Defined.

(** The same Pong: the merge meets no full bucket; [bob] and [carol]
    exist afterwards. *)
Lemma pong_from_resolved_sender_bootstraps_witness :
  passes (table booted) (envelope bob alice x02) bob alice (decoded 2) /\
  kademlia.roomy 2 (kademlia.Update 2 keep_old (table booted) bob)
    [carol; home] = true /\
  kademlia.PeerExists
    (table (snd (handle node (Some (envelope bob alice x02)) booted))) bob
  = true /\
  kademlia.PeerExists
    (table (snd (handle node (Some (envelope bob alice x02)) booted))) carol
  = true.
Proof.
  assert (Hv : passes (table booted) (envelope bob alice x02) bob alice
                 (decoded 2)) by by_evaluation.
  split; [exact Hv|]. split; [reflexivity|].
  destruct (@pong_from_resolved_sender_bootstraps 2 keep_old (engine 2) wire
              example_opcodes_distinct node booted _ _ _ _ Hv
              eq_refl eq_refl) as (_ & _ & _ & _ & _ & _ & Hroom).
  destruct (Hroom eq_refl) as [Hs Hfound].
  split; [exact Hs|].
  apply Hfound; [left; reflexivity | reflexivity].
Defined.

(** A nil message is refused and the table is left as it was. *)
Lemma error_leaves_table_or_only_sender_refresh_witness :
  snd (fst (handle node None booted)) = Some (errors.New "Message is corrupt") /\
  table (snd (handle node None booted)) = table booted.
Proof.
  split; [reflexivity|].
  destruct (@error_leaves_table_or_only_sender_refresh (kademlia.ops 2 keep_old)
              (engine 2) wire node None booted
              (errors.New "Message is corrupt") eq_refl)
    as [(_ & _ & Ht & _) | (Hv & _)].
  - exact Ht.
  - discriminate Hv.
Defined.

(** The Pong body sent to [bob] would itself pass the first check. *)
Lemma replies_carry_service_tag_witness :
  fst (fst (handle node (Some (envelope bob alice x01)) booted)) =
  Some {| protocol.Service := 5; protocol.Payload := [x02] |} /\
  @corrupt wire
    (Some (envelope alice bob x02)) = false.
Proof.
  split; [reflexivity|].
  destruct (@replies_carry_service_tag (kademlia.ops 2 keep_old) (engine 2) wire
              node (Some (envelope bob alice x01)) booted
              {| protocol.Service := 5; protocol.Payload := [x02] |}
              (or_introl eq_refl)) as [_ Hpass].
  apply (Hpass (peer.Address alice) (peer.Address bob)).
Defined.

(** C2 fails on a message with opcode 9 from [bob]: the entry point returns
    the unknown-opcode error, yet [bob] was upserted and the table is no
    longer the one it was. *)
Lemma unknown_opcode_error_follows_upsert :
  let out := handle node (Some (envelope bob alice x09)) booted in
  snd (fst out) = Some (errors.Errorf "Unknown message opcode type: %d" 9) /\
  table (snd out) <> table booted /\
  mutations (trace (snd out)) = [CallUpdate bob].
Proof.
  cbv zeta. split; [reflexivity|]. split; [|reflexivity].
  vm_compute. discriminate.
Qed.

(** C8 fails on a Pong from [carol], whom the table does not know: the
    entry point cannot resolve the sender, so it returns an error, [carol]
    is still not in the table and no lookup was called.  For a sender the
    table knows the rest of the claim fails as well: with Pong switched
    off no lookup is called; the local identity, when a lookup returns it,
    is not in the table afterwards; and with bucket size 2 the third peer
    found for one bucket is not in the table afterwards either. *)
Lemma pong_from_unknown_sender_is_refused :
  let out := handle node (Some (envelope carol alice x02)) booted in
  let unheard := handle deaf (Some (envelope bob alice x02)) booted in
  let merged := handle node (Some (envelope bob alice x02)) booted in
  let full := handle crowded (Some (envelope bob alice x02)) booted in
  @Unmarshal wire [x02] = Ok (decoded (@opCodePong wire)) /\
  kademlia.PeerExists (table booted) carol = false /\
  snd (fst out) = Some (errors.New "Unable to lookup sender") /\
  kademlia.PeerExists (table (snd out)) carol = false /\
  lookups (trace (snd out)) = [] /\
  (fst unheard = (None, None) /\ lookups (trace (snd unheard)) = []) /\
  (lookups (trace (snd merged)) = [CallFindNode bob 2 8] /\
   mutations (trace (snd merged)) =
   [CallUpdate bob; CallUpdate carol; CallUpdate home] /\
   kademlia.PeerExists (table (snd merged)) home = false) /\
  (lookups (trace (snd full)) = [CallFindNode bob 2 8] /\
   mutations (trace (snd full)) =
   [CallUpdate bob; CallUpdate erin; CallUpdate frank; CallUpdate grace] /\
   kademlia.PeerExists (table (snd full)) grace = false).
Proof.
  cbv zeta. repeat split; reflexivity.
Qed.

End Runs.

(** ** More on the entry points, for any routing table, engine and wire *)

Section Arms.

Context `{E : Engine} `{W : Wire}.

(** The five ways out of [receive]. *)
Lemma receive_arms (s : Service) (sender target : peer.ID)
  (msg : protobuf.Message) (m : machine) :
  let routes := Update (table m) sender in
  let peers := FindNode routes (sendHandler s) sender BucketSize 8 in
  let merged := fold_left Update peers routes in
  let closest := FindClosestPeers routes target BucketSize in
  (protobuf.Opcode msg = opCodePing /\ DisablePing s = false /\
   receive s sender target msg m =
   (makeMessageBody opCodePong protobuf.Pong, refreshed m sender)) \/
  (protobuf.Opcode msg = opCodePong /\ DisablePong s = false /\
   receive s sender target msg m =
   ((None, None),
    after m merged
      ([CallUpdate sender; CallFindNode sender BucketSize 8] ++
       map CallUpdate peers ++
       [CallGetPeerAddresses;
        Logged {| log.level := log.Info;
                  log.fields := [log.Strs "peers" (GetPeerAddresses merged)];
                  log.message := "Bootstrapped w/ peer(s)." |}]))) \/
  (protobuf.Opcode msg = opCodeLookupRequest /\ DisableLookup s = false /\
   receive s sender target msg m =
   (makeMessageBody opCodeLookupResponse
      (protobuf.LookupNodeResponse (map protobuf.of_peer closest)),
    after m routes
      [CallUpdate sender; CallFindClosestPeers target BucketSize])) \/
  (category_disabled s (protobuf.Opcode msg) /\
   receive s sender target msg m = ((None, None), refreshed m sender)) \/
  (protobuf.Opcode msg <> opCodePing /\ protobuf.Opcode msg <> opCodePong /\
   protobuf.Opcode msg <> opCodeLookupRequest /\
   receive s sender target msg m =
   ((None, Some (errors.Errorf "Unknown message opcode type: %d"
                   (protobuf.Opcode msg))),
    refreshed m sender)).
Proof.
  cbv zeta. set (r := receive s sender target msg m).
  assert (Hr : r = receive s sender target msg m) by reflexivity.
  clearbody r. unfold receive in Hr. unfold bind at 1 in Hr.
  unfold Routes_Update at 1, write at 1 in Hr.
  destruct (protobuf.Opcode msg =? opCodePing) eqn:Hping.
  { apply Z.eqb_eq in Hping. destruct (DisablePing s) eqn:Hd.
    - do 3 right. left. split; [left; now split | now subst r].
    - left. repeat split; first [assumption | now subst r]. }
  apply Z.eqb_neq in Hping.
  destruct (protobuf.Opcode msg =? opCodePong) eqn:Hpong.
  { apply Z.eqb_eq in Hpong. destruct (DisablePong s) eqn:Hd.
    - do 3 right. left. split; [right; left; now split | now subst r].
    - right. left. split; [exact Hpong|]. split; [reflexivity|].
      unfold bind at 1 in Hr. unfold call_FindNode, read at 1 in Hr.
      simpl table in Hr.
      unfold bind at 1 in Hr. rewrite for_range_Update in Hr.
      simpl table in Hr.
      unfold bind, Routes_GetPeerAddresses, read, emit, write, ret, after
        in Hr.
      simpl in Hr. repeat rewrite <- app_assoc in Hr. subst r.
      unfold after. reflexivity. }
  apply Z.eqb_neq in Hpong.
  destruct (protobuf.Opcode msg =? opCodeLookupRequest) eqn:Hreq.
  { apply Z.eqb_eq in Hreq. destruct (DisableLookup s) eqn:Hd.
    - do 3 right. left. split; [right; right; now split | now subst r].
    - do 2 right. left. split; [exact Hreq|]. split; [reflexivity|].
      unfold bind, Routes_FindClosestPeers, read, ret in Hr.
      simpl table in Hr. rewrite append_each_is_map in Hr.
      simpl in Hr. rewrite <- app_assoc in Hr. subst r.
      unfold after. reflexivity. }
  apply Z.eqb_neq in Hreq.
  do 4 right. repeat split; first [assumption | now subst r].
Qed.

(** A refused message: the only calls made resolve addresses. *)
Lemma ReceiveHandler_refused (s : Service)
  (message : option protocol.Message) (m : machine) :
  (exists e calls,
      validation_failure e = true /\ Forall resolves calls /\
      forall s' : Service,
        ReceiveHandler s' message m =
        ((None, Some e), after m (table m) calls)) \/
  (exists message' sender target msg,
      message = Some message' /\
      valid (table m) message' sender target msg).
Proof.
  destruct message as [[from to [body|]]|].
  2, 3: left; exists (errors.New "Message is corrupt"), [];
        repeat split; [constructor|]; intros s';
        unfold ReceiveHandler, ret, after; simpl;
        rewrite app_nil_r; now destruct m.
  destruct (protocol.Service body =? DiscoveryServiceID) eqn:Htag.
  2: { left. exists (errors.New "Message is corrupt"), [].
       repeat split; [constructor|]. intros s'.
       unfold ReceiveHandler, corrupt, ret, after. simpl.
       rewrite Htag. simpl. rewrite app_nil_r. now destruct m. }
  destruct (protocol.Payload body) as [|b0 bs] eqn:Hpay.
  { left. exists (errors.New "Message body is missing"), [].
    repeat split; [constructor|]. intros s'.
    unfold ReceiveHandler, corrupt, ret, after. simpl.
    rewrite Htag, Hpay. simpl. rewrite app_nil_r. now destruct m. }
  assert (Hlen : (Z.of_nat (List.length (b0 :: bs)) =? 0) = false)
    by (apply Z.eqb_neq; simpl List.length; lia).
  destruct (LookupRemoteAddress (table m) from) as [sender|] eqn:Hs.
  2: { left. exists (errors.New "Unable to lookup sender"),
         [CallLookupRemoteAddress from].
       repeat split; [repeat constructor; now exists from|]. intros s'.
       unfold ReceiveHandler, corrupt. simpl.
       rewrite Htag, Hpay, Hlen. simpl.
       unfold bind, Routes_LookupRemoteAddress, read. now rewrite Hs. }
  destruct (LookupRemoteAddress (table m) to) as [target|] eqn:Ht.
  2: { left. exists (errors.New "Unable to lookup recipient"),
         [CallLookupRemoteAddress from; CallLookupRemoteAddress to].
       repeat split;
         [repeat constructor; [now exists from | now exists to]|].
       intros s'. unfold ReceiveHandler, corrupt. simpl.
       rewrite Htag, Hpay, Hlen. simpl.
       unfold bind, Routes_LookupRemoteAddress, read. simpl.
       rewrite Hs. simpl. rewrite Ht. unfold ret, after.
       now rewrite <- app_assoc. }
  destruct (Unmarshal (protocol.Payload body)) as [msg|what] eqn:HU.
  2: { left.
       exists (errors.Wrap (errors.Foreign what) "Unable to parse message"),
         [CallLookupRemoteAddress from; CallLookupRemoteAddress to].
       repeat split;
         [repeat constructor; [now exists from | now exists to]|].
       intros s'. unfold ReceiveHandler, corrupt. simpl.
       rewrite Htag, Hpay, Hlen. simpl.
       unfold bind, Routes_LookupRemoteAddress, read. simpl.
       rewrite Hs. simpl. rewrite Ht. rewrite <- Hpay, HU. unfold ret, after.
       now rewrite <- app_assoc. }
  right. exists (protocol.mkMessage from to (Some body)), sender, target, msg.
  split; [reflexivity|]. exists body. simpl.
  apply Z.eqb_eq in Htag. rewrite Hpay.
  repeat split; try assumption; try discriminate. now rewrite <- Hpay.
Qed.

Lemma resolves_no_mutation (calls : list event) :
  Forall resolves calls -> mutations calls = [] /\ lookups calls = [].
Proof.
  induction 1 as [|e calls [a ->] _ [IH1 IH2]]; simpl; [now split|].
  now split.
Qed.

(** The five ways out of the entry point for a valid message. *)
Lemma ReceiveHandler_arms (s : Service) (m : machine)
  (message : protocol.Message) (sender target : peer.ID)
  (msg : protobuf.Message) :
  valid (table m) message sender target msg ->
  let routes := Update (table m) sender in
  let peers := FindNode routes (sendHandler s) sender BucketSize 8 in
  let merged := fold_left Update peers routes in
  let closest := FindClosestPeers routes target BucketSize in
  let refresh := resolving message ++ [CallUpdate sender] in
  (protobuf.Opcode msg = opCodePing /\ DisablePing s = false /\
   ReceiveHandler s (Some message) m =
   (makeMessageBody opCodePong protobuf.Pong, after m routes refresh)) \/
  (protobuf.Opcode msg = opCodePong /\ DisablePong s = false /\
   ReceiveHandler s (Some message) m =
   ((None, None),
    after m merged
      (refresh ++ [CallFindNode sender BucketSize 8] ++
       map CallUpdate peers ++
       [CallGetPeerAddresses;
        Logged {| log.level := log.Info;
                  log.fields := [log.Strs "peers" (GetPeerAddresses merged)];
                  log.message := "Bootstrapped w/ peer(s)." |}]))) \/
  (protobuf.Opcode msg = opCodeLookupRequest /\ DisableLookup s = false /\
   ReceiveHandler s (Some message) m =
   (makeMessageBody opCodeLookupResponse
      (protobuf.LookupNodeResponse (map protobuf.of_peer closest)),
    after m routes (refresh ++ [CallFindClosestPeers target BucketSize]))) \/
  (category_disabled s (protobuf.Opcode msg) /\
   ReceiveHandler s (Some message) m = ((None, None), after m routes refresh))
  \/
  (protobuf.Opcode msg <> opCodePing /\ protobuf.Opcode msg <> opCodePong /\
   protobuf.Opcode msg <> opCodeLookupRequest /\
   ReceiveHandler s (Some message) m =
   ((None, Some (errors.Errorf "Unknown message opcode type: %d"
                   (protobuf.Opcode msg))),
    after m routes refresh)).
Proof.
  intros Hv. cbv zeta. rewrite (ReceiveHandler_valid s m Hv).
  destruct (receive_arms s sender target msg
              (after m (table m) (resolving message)))
    as [(Ho & Hf & ->) | [(Ho & Hf & ->) | [(Ho & Hf & ->)
       | [(Hd & ->) | (N1 & N2 & N3 & ->)]]]]; cbv zeta; simpl table.
  - left. repeat split; try assumption.
    rewrite hand_back_makeMessageBody. unfold refreshed.
    now rewrite after_after.
  - right. left. repeat split; try assumption. simpl hand_back.
    rewrite after_after. now rewrite <- !app_assoc.
  - do 2 right. left. repeat split; try assumption.
    rewrite hand_back_makeMessageBody. rewrite after_after.
    now rewrite <- !app_assoc.
  - do 3 right. left. split; [assumption|]. simpl hand_back.
    unfold refreshed. now rewrite after_after.
  - do 4 right. repeat split; try assumption. simpl hand_back.
    unfold refreshed. now rewrite after_after.
Qed.

End Arms.

Section Refusals.

Context `{E : Engine} `{W : Wire}.

(** X1: the entry point never hands back a reply together with an error,
    and [makeMessageBody] returns exactly one of the two. *)
Theorem reply_and_error_exclude_each_other (s : Service)
  (message : option protocol.Message) (m : machine)
  (opcode : Z) (content : protobuf.content) :
  (fst (fst (ReceiveHandler s message m)) = None \/
   snd (fst (ReceiveHandler s message m)) = None) /\
  ((exists body, makeMessageBody opcode content = (Some body, None)) \/
   (exists e, makeMessageBody opcode content = (None, Some e))).
Proof.
  split.
  - destruct (ReceiveHandler_refused s message m)
      as [(e & calls & _ & _ & Hrun)
         | (message' & sender & target & msg & -> & Hv)].
    + rewrite (Hrun s). now left.
    + rewrite (ReceiveHandler_valid s m Hv).
      destruct (receive s sender target msg _) as [[reply [err|]] m'];
        simpl; auto.
  - destruct (makeMessageBody_cases opcode content)
      as [(msg & bs & _ & _ & ->) | [(what & ->) | (what & ->)]]; eauto.
Qed.

(** X2: a nil message, a nil body or a foreign service tag is refused as
    corrupt before anything else is looked at: no collaborator is called
    and the state is the one it was. *)
Theorem corrupt_message_is_refused_untouched (s : Service)
  (message : option protocol.Message) (m : machine) :
  corrupt message = true ->
  ReceiveHandler s message m =
  ((None, Some (errors.New "Message is corrupt")), m).
Proof.
  intros Hc. destruct message as [[from to [body|]]|]; try reflexivity.
  unfold ReceiveHandler. now rewrite Hc.
Qed.

(** X3: a message with the right tag and an empty payload is refused as
    missing its body, again before any collaborator is called, whether or
    not its addresses would resolve. *)
Theorem empty_payload_is_refused_untouched (s : Service)
  (message : protocol.Message) (body : protocol.MessageBody) (m : machine) :
  protocol.Body message = Some body ->
  protocol.Service body = DiscoveryServiceID ->
  protocol.Payload body = [] ->
  ReceiveHandler s (Some message) m =
  ((None, Some (errors.New "Message body is missing")), m).
Proof.
  intros Hb Htag Hpay. destruct message as [from to b]. simpl in Hb. subst b.
  unfold ReceiveHandler, corrupt. simpl.
  now rewrite Htag, Z.eqb_refl, Hpay.
Qed.

(** X4: when the sender's address does not resolve, the entry point stops
    there: the recipient is not looked up and the table is not touched. *)
Theorem unresolved_sender_stops_resolution (s : Service)
  (message : protocol.Message) (body : protocol.MessageBody) (m : machine) :
  protocol.Body message = Some body ->
  protocol.Service body = DiscoveryServiceID ->
  protocol.Payload body <> [] ->
  LookupRemoteAddress (table m) (protocol.Sender message) = None ->
  ReceiveHandler s (Some message) m =
  ((None, Some (errors.New "Unable to lookup sender")),
   after m (table m) [CallLookupRemoteAddress (protocol.Sender message)]).
Proof.
  intros Hb Htag Hpay Hs. destruct message as [from to b]. simpl in *. subst b.
  unfold ReceiveHandler, corrupt. simpl. rewrite Htag, Z.eqb_refl. simpl.
  destruct (protocol.Payload body) as [|b0 bs]; [congruence|].
  replace (Z.of_nat (List.length (b0 :: bs)) =? 0) with false
    by (symmetry; apply Z.eqb_neq; simpl List.length; lia).
  unfold bind, Routes_LookupRemoteAddress, read. now rewrite Hs.
Qed.

(** X5: when the sender resolves and the recipient does not, the message
    is refused whatever its payload; both addresses were looked up and the
    sender was not refreshed. *)
Theorem unresolved_recipient_is_refused (s : Service)
  (message : protocol.Message) (body : protocol.MessageBody) (m : machine)
  (sender : peer.ID) :
  protocol.Body message = Some body ->
  protocol.Service body = DiscoveryServiceID ->
  protocol.Payload body <> [] ->
  LookupRemoteAddress (table m) (protocol.Sender message) = Some sender ->
  LookupRemoteAddress (table m) (protocol.Recipient message) = None ->
  ReceiveHandler s (Some message) m =
  ((None, Some (errors.New "Unable to lookup recipient")),
   after m (table m) (resolving message)).
Proof.
  intros Hb Htag Hpay Hs Ht. destruct message as [from to b].
  simpl in *. subst b.
  unfold ReceiveHandler, corrupt. simpl. rewrite Htag, Z.eqb_refl. simpl.
  destruct (protocol.Payload body) as [|b0 bs]; [congruence|].
  replace (Z.of_nat (List.length (b0 :: bs)) =? 0) with false
    by (symmetry; apply Z.eqb_neq; simpl List.length; lia).
  unfold bind, Routes_LookupRemoteAddress, read. simpl.
  rewrite Hs. simpl. rewrite Ht. unfold ret, after, resolving. simpl.
  now rewrite <- app_assoc.
Qed.

(** X6: a payload that does not decode is refused with the decoder's error
    wrapped as "Unable to parse message"; both addresses were resolved but
    the sender was not refreshed. *)
Theorem undecodable_payload_is_refused (s : Service)
  (message : protocol.Message) (body : protocol.MessageBody) (m : machine)
  (sender target : peer.ID) (what : string) :
  protocol.Body message = Some body ->
  protocol.Service body = DiscoveryServiceID ->
  protocol.Payload body <> [] ->
  LookupRemoteAddress (table m) (protocol.Sender message) = Some sender ->
  LookupRemoteAddress (table m) (protocol.Recipient message) = Some target ->
  Unmarshal (protocol.Payload body) = Failed what ->
  ReceiveHandler s (Some message) m =
  ((None, Some (errors.Wrap (errors.Foreign what) "Unable to parse message")),
   after m (table m) (resolving message)).
Proof.
  intros Hb Htag Hpay Hs Ht HU. destruct message as [from to b].
  simpl in *. subst b.
  unfold ReceiveHandler, corrupt. simpl. rewrite Htag, Z.eqb_refl. simpl.
  destruct (protocol.Payload body) as [|b0 bs] eqn:Hp; [congruence|].
  replace (Z.of_nat (List.length (b0 :: bs)) =? 0) with false
    by (symmetry; apply Z.eqb_neq; simpl List.length; lia).
  unfold bind, Routes_LookupRemoteAddress, read. simpl.
  rewrite Hs. simpl. rewrite Ht, HU. unfold ret, after, resolving. simpl.
  now rewrite <- app_assoc.
Qed.

(** X12: whether a message is refused by the checks does not depend on the
    service's settings: a validation failure is returned, with the same
    state, by every service. *)
Theorem refusal_ignores_the_settings (s s' : Service)
  (message : option protocol.Message) (m : machine) (e : errors.error) :
  snd (fst (ReceiveHandler s message m)) = Some e ->
  validation_failure e = true ->
  ReceiveHandler s' message m = ReceiveHandler s message m.
Proof.
  intros He Hv.
  destruct (ReceiveHandler_refused s message m)
    as [(e' & calls & _ & _ & Hrun)
       | (message' & sender & target & msg & -> & Hvalid)].
  - now rewrite (Hrun s), (Hrun s').
  - exfalso. rewrite (ReceiveHandler_valid s m Hvalid) in He.
    destruct (receive s sender target msg
                (after m (table m) (resolving message'))) as [r m1] eqn:Hrec.
    simpl in He. rewrite hand_back_error in He.
    pose proof (@receive_error _ _ _ s sender target msg
                  (after m (table m) (resolving message')) e) as Herr.
    rewrite Hrec in Herr. simpl in Herr.
    destruct (Herr He) as (_ & Hn & _). congruence.
Qed.

End Refusals.

Section Effects.

Context `{E : Engine} `{W : Wire}.

(** X7: whatever the message, the entry point changes the table by upserts
    only: the table afterwards is the old one with some peers upserted in
    turn, and no removal is ever called. *)
Theorem entry_point_only_upserts (s : Service)
  (message : option protocol.Message) (m : machine) :
  exists upserted,
    table (snd (ReceiveHandler s message m)) =
    fold_left Update upserted (table m) /\
    mutations (trace (snd (ReceiveHandler s message m))) =
    mutations (trace m) ++ map CallUpdate upserted.
Proof.
  destruct (ReceiveHandler_refused s message m)
    as [(e & calls & _ & Hc & Hrun)
       | (message' & sender & target & msg & -> & Hv)].
  - exists []. rewrite (Hrun s). unfold after; cbn [snd table trace].
    rewrite mutations_app. now destruct (resolves_no_mutation Hc) as [-> _].
  - assert (Hres : mutations (resolving message') = []) by reflexivity.
    destruct (ReceiveHandler_arms s m Hv)
      as [(_ & _ & ->) | [(_ & _ & ->) | [(_ & _ & ->)
         | [(_ & ->) | (_ & _ & _ & ->)]]]];
      unfold after; cbn [snd table trace].
    + exists [sender]. split; [reflexivity|].
      now rewrite !mutations_app, Hres.
    + exists (sender :: FindNode (Update (table m) sender) (sendHandler s)
                          sender BucketSize 8).
      split; [reflexivity|].
      rewrite !mutations_app, Hres, mutations_updates. f_equal.
      simpl. now rewrite app_nil_r.
    + exists [sender]. split; [reflexivity|].
      now rewrite !mutations_app, Hres.
    + exists [sender]. split; [reflexivity|].
      now rewrite !mutations_app, Hres.
    + exists [sender]. split; [reflexivity|].
      now rewrite !mutations_app, Hres.
Qed.

(** X8: every valid message, whatever its opcode and whatever is switched
    off, has its sender upserted first; more peers are upserted after it
    only by an enabled Pong. *)
Theorem valid_message_refreshes_sender_first (s : Service) (m : machine)
  (message : protocol.Message) (sender target : peer.ID)
  (msg : protobuf.Message) :
  valid (table m) message sender target msg ->
  exists more,
    table (snd (ReceiveHandler s (Some message) m)) =
    fold_left Update more (Update (table m) sender) /\
    mutations (trace (snd (ReceiveHandler s (Some message) m))) =
    mutations (trace m) ++ CallUpdate sender :: map CallUpdate more /\
    (more <> [] ->
     protobuf.Opcode msg = opCodePong /\ DisablePong s = false).
Proof.
  intros Hv.
  assert (Hres : mutations (resolving message) = []) by reflexivity.
  destruct (ReceiveHandler_arms s m Hv)
    as [(_ & _ & ->) | [(Ho & Hf & ->) | [(_ & _ & ->)
       | [(_ & ->) | (_ & _ & _ & ->)]]]];
      unfold after; cbn [snd table trace].
  2: { exists (FindNode (Update (table m) sender) (sendHandler s)
                 sender BucketSize 8).
       split; [reflexivity|]. split; [|now split].
       rewrite !mutations_app, Hres, mutations_updates. f_equal.
       simpl. now rewrite app_nil_r. }
  all: exists []; split; [reflexivity|]; split; [|congruence];
       now rewrite !mutations_app, Hres.
Qed.

(** X9: the lookup engine is called by nothing but a valid Pong with the
    category enabled, and then once, for the sender: any other message
    leaves the record of lookups as it was. *)
Theorem lookup_only_on_enabled_pong (s : Service)
  (message : option protocol.Message) (m : machine) :
  lookups (trace (snd (ReceiveHandler s message m))) = lookups (trace m) \/
  exists message' sender target msg,
    message = Some message' /\
    valid (table m) message' sender target msg /\
    protobuf.Opcode msg = opCodePong /\ DisablePong s = false /\
    lookups (trace (snd (ReceiveHandler s message m))) =
    lookups (trace m) ++ [CallFindNode sender BucketSize 8].
Proof.
  destruct (ReceiveHandler_refused s message m)
    as [(e & calls & _ & Hc & Hrun)
       | (message' & sender & target & msg & -> & Hv)].
  - left. rewrite (Hrun s). unfold after; cbn [snd table trace].
    rewrite lookups_app. destruct (resolves_no_mutation Hc) as [_ ->].
    now rewrite app_nil_r.
  - assert (Hres : lookups (resolving message') = []) by reflexivity.
    destruct (ReceiveHandler_arms s m Hv)
      as [(_ & _ & ->) | [(Ho & Hf & ->) | [(_ & _ & ->)
         | [(_ & ->) | (_ & _ & _ & ->)]]]];
      unfold after; cbn [snd table trace].
    2: { right. exists message', sender, target, msg.
         repeat split; try assumption.
         rewrite !lookups_app, Hres, lookups_updates. f_equal. }
    all: left; rewrite !lookups_app, Hres; simpl; now rewrite app_nil_r.
Qed.

(** X10: a reply is only ever given to a valid Ping or a valid
    LookupRequest whose category is enabled, and it is the body built for
    that arm; a Pong, a LookupResponse, an unknown opcode or a refused
    message gets none. *)
Theorem reply_only_to_ping_or_lookup_request (s : Service)
  (message : option protocol.Message) (m : machine)
  (reply : protocol.MessageBody) :
  fst (fst (ReceiveHandler s message m)) = Some reply ->
  exists message' sender target msg,
    message = Some message' /\
    valid (table m) message' sender target msg /\
    ((protobuf.Opcode msg = opCodePing /\ DisablePing s = false /\
      fst (makeMessageBody opCodePong protobuf.Pong) = Some reply) \/
     (protobuf.Opcode msg = opCodeLookupRequest /\ DisableLookup s = false /\
      fst (makeMessageBody opCodeLookupResponse
             (protobuf.LookupNodeResponse
                (map protobuf.of_peer
                   (FindClosestPeers (Update (table m) sender) target
                      BucketSize)))) = Some reply)).
Proof.
  intros Hr.
  destruct (ReceiveHandler_refused s message m)
    as [(e & calls & _ & _ & Hrun)
       | (message' & sender & target & msg & -> & Hv)].
  - rewrite (Hrun s) in Hr. discriminate.
  - exists message', sender, target, msg. split; [reflexivity|].
    split; [exact Hv|].
    destruct (ReceiveHandler_arms s m Hv)
      as [(Ho & Hf & Hrun) | [(_ & _ & Hrun) | [(Ho & Hf & Hrun)
         | [(_ & Hrun) | (_ & _ & _ & Hrun)]]]];
      rewrite Hrun in Hr; simpl in Hr; try discriminate.
    + left. now repeat split.
    + right. now repeat split.
Qed.

(** X11: the three toggles are independent: two services that agree on the
    flag of a message's own category (and, for a Pong, on the send
    handler) treat that message alike, whatever their other flags. *)
Theorem toggles_are_independent (s s' : Service) (m : machine)
  (message : protocol.Message) (sender target : peer.ID)
  (msg : protobuf.Message) :
  valid (table m) message sender target msg ->
  agree s s' (protobuf.Opcode msg) ->
  ReceiveHandler s' (Some message) m = ReceiveHandler s (Some message) m.
Proof.
  intros Hv (A1 & A2 & A3).
  rewrite (ReceiveHandler_valid s m Hv), (ReceiveHandler_valid s' m Hv).
  replace (receive s' sender target msg
             (after m (table m) (resolving message)))
    with (receive s sender target msg
            (after m (table m) (resolving message)));
    [reflexivity|].
  unfold receive, bind.
  destruct (Routes_Update sender (after m (table m) (resolving message)))
    as [u m1].
  destruct (protobuf.Opcode msg =? opCodePing) eqn:Hping.
  { apply Z.eqb_eq in Hping. now rewrite (A1 Hping). }
  destruct (protobuf.Opcode msg =? opCodePong) eqn:Hpong.
  { apply Z.eqb_eq in Hpong. destruct (A2 Hpong) as [-> ->]. reflexivity. }
  destruct (protobuf.Opcode msg =? opCodeLookupRequest) eqn:Hreq.
  { apply Z.eqb_eq in Hreq. now rewrite (A3 Hreq). }
  reflexivity.
Qed.

(** X14: a service made by [NewService] drops no valid message silently:
    it hands back neither reply nor error only for a Pong, and then the
    lookup for the sender has run through the handler it was made with. *)
Theorem new_service_is_silent_only_on_pong (sh : SendHandler)
  (selfID : peer.ID) (m : machine) (message : protocol.Message)
  (sender target : peer.ID) (msg : protobuf.Message) :
  valid (table m) message sender target msg ->
  fst (ReceiveHandler (fst (NewService sh selfID)) (Some message) m) =
  (None, None) ->
  protobuf.Opcode msg = opCodePong /\
  table (snd (ReceiveHandler (fst (NewService sh selfID)) (Some message) m)) =
  fold_left Update
    (FindNode (Update (table m) sender) sh sender BucketSize 8)
    (Update (table m) sender).
Proof.
  intros Hv Hsilent.
  destruct (ReceiveHandler_arms (fst (NewService sh selfID)) m Hv)
    as [(_ & _ & Hrun) | [(Ho & _ & Hrun) | [(_ & _ & Hrun)
       | [(Hd & _) | (_ & _ & _ & Hrun)]]]].
  - rewrite Hrun in Hsilent. simpl in Hsilent.
    destruct (makeMessageBody_cases opCodePong protobuf.Pong)
      as [(pm & bs & _ & _ & Hb) | [(what & Hb) | (what & Hb)]];
      rewrite Hb in Hsilent; discriminate.
  - split; [exact Ho|]. now rewrite Hrun.
  - rewrite Hrun in Hsilent. simpl in Hsilent.
    destruct (makeMessageBody_cases opCodeLookupResponse
                (protobuf.LookupNodeResponse
                   (map protobuf.of_peer
                      (FindClosestPeers (Update (table m) sender) target
                         BucketSize))))
      as [(pm & bs & _ & _ & Hb) | [(what & Hb) | (what & Hb)]];
      rewrite Hb in Hsilent; discriminate.
  - destruct Hd as [[_ Hd] | [[_ Hd] | [_ Hd]]]; discriminate.
  - rewrite Hrun in Hsilent. discriminate.
Qed.

(** X13: the disconnect notification, for any routing table: it asks the
    table whether the peer exists; only when the table says so does it
    call the removal, for that peer, and write one Debug record, with the
    local address read after the removal; otherwise it does nothing more.
    The service's settings play no part. *)
Theorem disconnect_removes_only_what_the_table_reports (s s' : Service)
  (target : peer.ID) (m : machine) :
  PeerDisconnect s' target m = PeerDisconnect s target m /\
  snd (PeerDisconnect s target m) =
  if PeerExists (table m) target
  then after m (RemovePeer (table m) target)
         [CallPeerExists target; CallRemovePeer target; CallSelf;
          Logged {| log.level := log.Debug;
                    log.fields :=
                      [log.Str "address"
                         (peer.Address (Self (RemovePeer (table m) target)));
                       log.Str "peer_address" (peer.Address target)];
                    log.message := "Peer has disconnected." |}]
  else after m (table m) [CallPeerExists target].
Proof.
  split; [reflexivity|].
  unfold PeerDisconnect, bind, Routes_PeerExists, Routes_RemovePeer,
    Routes_Self, emit, read, write, ret, after. simpl.
  destruct (PeerExists (table m) target); simpl; [|reflexivity].
  now rewrite <- !app_assoc.
Qed.

End Effects.

Section Exchanges.

Context `{E : Engine} `{W : Wire}.

Hypothesis opcodes_distinct :
  NoDup [opCodePing; opCodePong; opCodeLookupRequest; opCodeLookupResponse].

(** X15: the Ping and Pong arms fit together.  Over a codec that decodes
    what it encodes and a [toProtobufMessage] that keeps the opcode, take
    the body a service returns for a Ping and deliver it to a service that
    resolves its addresses and has Pong enabled.  When its payload is not
    empty it is taken as a Pong: no reply goes back and one lookup is run,
    for the peer that answered.  When the codec encodes the Pong to the
    empty payload, it is refused as missing its body and nothing is
    called. *)
Theorem ping_reply_is_handled_as_pong
  (s1 s2 : Service) (m1 m2 : machine) (ping : protocol.Message)
  (sender1 target1 sender2 target2 : peer.ID) (msg1 : protobuf.Message)
  (reply : protocol.MessageBody) (from to : string) :
  (forall msg bytes, Marshal msg = Ok bytes -> Unmarshal bytes = Ok msg) ->
  (forall opcode content msg,
      toProtobufMessage opcode content = Ok msg ->
      protobuf.Opcode msg = opcode) ->
  valid (table m1) ping sender1 target1 msg1 ->
  protobuf.Opcode msg1 = opCodePing ->
  DisablePing s1 = false ->
  fst (fst (ReceiveHandler s1 (Some ping) m1)) = Some reply ->
  LookupRemoteAddress (table m2) from = Some sender2 ->
  LookupRemoteAddress (table m2) to = Some target2 ->
  DisablePong s2 = false ->
  let delivered := protocol.mkMessage from to (Some reply) in
  match protocol.Payload reply with
  | [] =>
      ReceiveHandler s2 (Some delivered) m2 =
      ((None, Some (errors.New "Message body is missing")), m2)
  | _ :: _ =>
      fst (ReceiveHandler s2 (Some delivered) m2) = (None, None) /\
      lookups (trace (snd (ReceiveHandler s2 (Some delivered) m2))) =
      lookups (trace m2) ++ [CallFindNode sender2 BucketSize 8]
  end.
Proof.
  intros Hround Hkeep Hv Hop Hen Hreply Hfrom Hto Hen2 delivered.
  assert (Hmade : fst (makeMessageBody opCodePong protobuf.Pong) = Some reply).
  { rewrite (ReceiveHandler_valid s1 m1 Hv) in Hreply.
    unfold receive, bind, Routes_Update, write in Hreply.
    rewrite Hop, Z.eqb_refl, Hen in Hreply. unfold ret in Hreply.
    rewrite hand_back_makeMessageBody in Hreply. exact Hreply. }
  destruct (makeMessageBody_cases opCodePong protobuf.Pong)
    as [(pm & bs & Hp & Hm & Hb) | [(what & Hb) | (what & Hb)]];
    rewrite Hb in Hmade; simpl in Hmade; try discriminate.
  inversion Hmade; subst reply. simpl protocol.Payload.
  destruct bs as [|b0 bs].
  - unfold delivered, ReceiveHandler, corrupt. simpl.
    now rewrite Z.eqb_refl.
  - assert (Hv2 : valid (table m2) delivered sender2 target2 pm).
    { eexists. repeat split; try eassumption; try reflexivity.
      - simpl. discriminate.
      - simpl. now apply Hround. }
    rewrite (ReceiveHandler_valid s2 m2 Hv2).
    rewrite (receive_pong opcodes_distinct s2 sender2 target2 pm _
               (Hkeep _ _ _ Hp) Hen2).
    cbv zeta. simpl hand_back. split; [reflexivity|].
    unfold after; cbn [snd table trace].
    assert (Hres : lookups (resolving delivered) = []) by reflexivity.
    rewrite !lookups_app, Hres, lookups_updates, app_nil_r. reflexivity.
Qed.

End Exchanges.

(** ** More runs on the small network *)

Section MoreRuns.

Import example.

Local Notation "'handle'" :=
  (@ReceiveHandler (kademlia.ops 2 keep_old) (engine 2) wire).
Local Notation "'passes'" := (@valid (kademlia.ops 2 keep_old) wire).

Local Ltac by_evaluation :=
  eexists; repeat split; try reflexivity; discriminate.

Lemma example_codec_round_trip (msg : protobuf.Message) (bytes : list byte) :
  @Marshal wire msg = Ok bytes -> @Unmarshal wire bytes = Ok msg.
Proof.
  destruct msg as [op cs]. simpl. unfold opcode_byte.
  destruct ((0 <=? op) && (op <? 256)) eqn:Hrange; [|discriminate].
  destruct (Byte.of_N (Z.to_N op)) as [b|] eqn:Hb; [|discriminate].
  intros Hm. inversion Hm; subst bytes. do 2 f_equal.
  apply Byte.to_of_N in Hb. rewrite Hb.
  apply andb_true_iff in Hrange. destruct Hrange as [Hlo _].
  apply Z.leb_le in Hlo. now apply Z2N.id.
Qed.

Lemma example_keeps_opcode (opcode : Z) (content : protobuf.content)
  (msg : protobuf.Message) :
  @toProtobufMessage wire opcode content = Ok msg ->
  protobuf.Opcode msg = opcode.
Proof. simpl. intros Hm. now inversion Hm. Qed.

(** A message tagged for service 7. *)
Lemma corrupt_message_is_refused_untouched_witness :
  let foreign :=
    protocol.mkMessage "10.0.0.3:3000" "10.0.0.2:3000"
      (Some {| protocol.Service := 7; protocol.Payload := [x01] |}) in
  @corrupt wire (Some foreign) = true /\
  handle node (Some foreign) booted =
  ((None, Some (errors.New "Message is corrupt")), booted).
Proof.
  cbv zeta. split; [reflexivity|].
  apply (@corrupt_message_is_refused_untouched (kademlia.ops 2 keep_old) (engine 2)
           wire node _ booted).
  reflexivity.
Defined.

(** A message from [bob] with no payload. *)
Lemma empty_payload_is_refused_untouched_witness :
  let hollow :=
    protocol.mkMessage "10.0.0.3:3000" "10.0.0.2:3000"
      (Some {| protocol.Service := 5; protocol.Payload := [] |}) in
  handle node (Some hollow) booted =
  ((None, Some (errors.New "Message body is missing")), booted).
Proof.
  cbv zeta.
  apply (@empty_payload_is_refused_untouched (kademlia.ops 2 keep_old) (engine 2)
           wire node _ {| protocol.Service := 5; protocol.Payload := [] |}
           booted); reflexivity.
Defined.

(** A Ping from [carol], whom the table does not know. *)
Lemma unresolved_sender_stops_resolution_witness :
  kademlia.LookupRemoteAddress (table booted) "10.0.0.4:3000" = None /\
  handle node (Some (envelope carol alice x01)) booted =
  ((None, Some (errors.New "Unable to lookup sender")),
   after booted (table booted) [CallLookupRemoteAddress "10.0.0.4:3000"]).
Proof.
  split; [reflexivity|].
  apply (@unresolved_sender_stops_resolution (kademlia.ops 2 keep_old) (engine 2)
           wire node (envelope carol alice x01)
           {| protocol.Service := 5; protocol.Payload := [x01] |} booted);
    try reflexivity.
  discriminate.
Defined.

(** A Ping from [bob] addressed to [carol]. *)
Lemma unresolved_recipient_is_refused_witness :
  kademlia.LookupRemoteAddress (table booted) "10.0.0.4:3000" = None /\
  handle node (Some (envelope bob carol x01)) booted =
  ((None, Some (errors.New "Unable to lookup recipient")),
   after booted (table booted)
     [CallLookupRemoteAddress "10.0.0.3:3000";
      CallLookupRemoteAddress "10.0.0.4:3000"]).
Proof.
  split; [reflexivity|].
  apply (@unresolved_recipient_is_refused (kademlia.ops 2 keep_old) (engine 2)
           wire node (envelope bob carol x01)
           {| protocol.Service := 5; protocol.Payload := [x01] |} booted bob);
    try reflexivity.
  discriminate.
Defined.

(** A payload the stricter decoder rejects. *)
Lemma undecodable_payload_is_refused_witness :
  @Unmarshal picky [xff] = Failed "illegal tag" /\
  @ReceiveHandler (kademlia.ops 2 keep_old) (engine 2) picky node
    (Some (envelope bob alice xff)) booted =
  ((None,
    Some (errors.Wrap (errors.Foreign "illegal tag")
            "Unable to parse message")),
   after booted (table booted)
     [CallLookupRemoteAddress "10.0.0.3:3000";
      CallLookupRemoteAddress "10.0.0.2:3000"]).
Proof.
  split; [reflexivity|].
  apply (@undecodable_payload_is_refused (kademlia.ops 2 keep_old) (engine 2)
           picky node (envelope bob alice xff)
           {| protocol.Service := 5; protocol.Payload := [xff] |} booted
           bob alice "illegal tag");
    try reflexivity.
  discriminate.
Defined.

(** The nil message is refused alike by [node] and by [quiet]. *)
Lemma refusal_ignores_the_settings_witness :
  snd (fst (handle node None booted)) =
  Some (errors.New "Message is corrupt") /\
  handle quiet None booted = handle node None booted.
Proof.
  split; [reflexivity|].
  apply (@refusal_ignores_the_settings (kademlia.ops 2 keep_old) (engine 2) wire
           node quiet None booted (errors.New "Message is corrupt"));
    reflexivity.
Defined.

(** A Pong from [bob]: after [bob], the peers the lookup came back with. *)
Lemma valid_message_refreshes_sender_first_witness :
  passes (table booted) (envelope bob alice x02) bob alice (decoded 2) /\
  exists more,
    table (snd (handle node (Some (envelope bob alice x02)) booted)) =
    fold_left (kademlia.Update 2 keep_old) more (kademlia.Update 2 keep_old (table booted) bob) /\
    mutations (trace (snd (handle node (Some (envelope bob alice x02)) booted)))
    = mutations (trace booted) ++ CallUpdate bob :: map CallUpdate more.
Proof.
  assert (Hv : passes (table booted) (envelope bob alice x02) bob alice
                 (decoded 2)) by by_evaluation.
  split; [exact Hv|].
  destruct (@valid_message_refreshes_sender_first (kademlia.ops 2 keep_old) (engine 2)
              wire node booted _ _ _ _ Hv) as (more & Ht & Hm & _).
  exists more. split; [exact Ht|exact Hm].
Defined.

(** The reply to [bob]'s Ping is the body made for the Ping arm. *)
Lemma reply_only_to_ping_or_lookup_request_witness :
  let pong := {| protocol.Service := 5; protocol.Payload := [x02] |} in
  fst (fst (handle node (Some (envelope bob alice x01)) booted)) = Some pong /\
  exists message' sender target msg,
    Some (envelope bob alice x01) = Some message' /\
    passes (table booted) message' sender target msg.
Proof.
  cbv zeta. split; [reflexivity|].
  destruct (@reply_only_to_ping_or_lookup_request (kademlia.ops 2 keep_old) (engine 2)
              wire node (Some (envelope bob alice x01)) booted
              {| protocol.Service := 5; protocol.Payload := [x02] |} eq_refl)
    as (message' & sender & target & msg & Hmsg & Hv & _).
  now exists message', sender, target, msg.
Defined.

(** A Ping is treated alike by [node] and by a service that has Pong and
    LookupRequest switched off. *)
Lemma toggles_are_independent_witness :
  let probes_only :=
    @mkService (kademlia.ops 2 keep_old) (engine 2) false true true [] in
  passes (table booted) (envelope bob alice x01) bob alice (decoded 1) /\
  handle probes_only (Some (envelope bob alice x01)) booted =
  handle node (Some (envelope bob alice x01)) booted.
Proof.
  cbv zeta.
  assert (Hv : passes (table booted) (envelope bob alice x01) bob alice
                 (decoded 1)) by by_evaluation.
  split; [exact Hv|].
  apply (@toggles_are_independent (kademlia.ops 2 keep_old) (engine 2) wire
           node _ booted _ _ _ _ Hv).
  repeat split; try reflexivity; discriminate.
Defined.

(** [node] is made by [NewService]; it is silent on [bob]'s Pong. *)
Lemma new_service_is_silent_only_on_pong_witness :
  passes (table booted) (envelope bob alice x02) bob alice (decoded 2) /\
  fst (handle node (Some (envelope bob alice x02)) booted) = (None, None) /\
  table (snd (handle node (Some (envelope bob alice x02)) booted)) =
  fold_left (kademlia.Update 2 keep_old) [carol; home]
    (kademlia.Update 2 keep_old (table booted) bob).
Proof.
  assert (Hv : passes (table booted) (envelope bob alice x02) bob alice
                 (decoded 2)) by by_evaluation.
  split; [exact Hv|]. split; [reflexivity|].
  apply (@new_service_is_silent_only_on_pong (kademlia.ops 2 keep_old) (engine 2)
           wire [carol; home] home booted _ _ _ _ Hv eq_refl).
Defined.

(** The body [node] returns for [bob]'s Ping, delivered back from [alice]
    to [bob]'s side of the table, starts the lookup for [alice]. *)
Lemma ping_reply_is_handled_as_pong_witness :
  let pong := {| protocol.Service := 5; protocol.Payload := [x02] |} in
  let delivered :=
    protocol.mkMessage "10.0.0.2:3000" "10.0.0.3:3000" (Some pong) in
  passes (table booted) (envelope bob alice x01) bob alice (decoded 1) /\
  fst (fst (handle node (Some (envelope bob alice x01)) booted)) = Some pong /\
  fst (handle node (Some delivered) booted) = (None, None) /\
  lookups (trace (snd (handle node (Some delivered) booted))) =
  [CallFindNode alice 2 8].
Proof.
  cbv zeta.
  assert (Hv : passes (table booted) (envelope bob alice x01) bob alice
                 (decoded 1)) by by_evaluation.
  split; [exact Hv|]. split; [reflexivity|].
  apply (@ping_reply_is_handled_as_pong (kademlia.ops 2 keep_old) (engine 2) wire
           example_opcodes_distinct node node booted booted
           (envelope bob alice x01) bob alice alice bob (decoded 1)
           {| protocol.Service := 5; protocol.Payload := [x02] |}
           "10.0.0.2:3000" "10.0.0.3:3000"
           example_codec_round_trip example_keeps_opcode Hv);
    reflexivity.
Defined.

End MoreRuns.
